(** * potech_bci: the four-band EEG filter pipeline and the bulb controller

    A shallow embedding of [eeg_four_band_plot.py] and [bulb_bci.py].
    Python dicts keyed by band name are [gmap string _], [collections.deque]
    and [queue.Queue] are records over lists, exceptions are the [Raise]
    case of [result]. *)

From Stdlib Require Import ZArith List Bool Ascii String HexadecimalString.
From Stdlib Require Import Lia Reals Lra Floats.
From stdpp Require Import gmap strings list fin_maps.

Set Default Proof Using "Type".
#[local] Set Warnings "-clear-no-such-hyp,-abstract-large-number".

(** ** Exceptions *)

Inductive exn : Set :=
  | ZeroDivisionError
  | ValueError
  | OverflowError
  | KeyError
  | IndexError
  | LinAlgError
  | Empty.

Inductive result (A : Type) : Type :=
  | Ok (a : A)
  | Raise (e : exn).
Arguments Ok {A} a.
Arguments Raise {A} e.

#[global] Instance result_ret : MRet result := fun _ a => Ok a.
#[global] Instance result_bind : MBind result := fun _ _ f m =>
  match m with
  | Ok a => f a
  | Raise e => Raise e
  end.

#[global] Instance result_fmap : FMap result := fun _ _ f m =>
  match m with
  | Ok a => Ok (f a)
  | Raise e => Raise e
  end.

Definition raises {A} (m : result A) : bool :=
  match m with Ok _ => false | Raise _ => true end.

(** [d[k]] on a dict: [KeyError] when the key is absent. *)
Definition getitem {V} (d : gmap string V) (k : string) : result V :=
  match d !! k with
  | Some v => Ok v
  | None => Raise KeyError
  end.

(** ** Python floats

    The operations the scripts apply to floats.  Nothing is assumed of
    them here: the pipeline is the same program over binary64 ([float64])
    and over the reals ([real]). *)

Class Arith (F : Type) := {
  fadd : F → F → F;
  fsub : F → F → F;
  fmul : F → F → F;
  fdiv : F → F → F;
  feqb : F → F → bool;
  fltb : F → F → bool;
  fleb : F → F → bool;
  of_int : Z → F;
}.

Declare Scope py_scope.
Delimit Scope py_scope with py.
Infix "+" := fadd : py_scope.
Infix "-" := fsub : py_scope.
Infix "*" := fmul : py_scope.
Infix "==" := feqb (at level 70) : py_scope.
Infix "<" := fltb : py_scope.
Infix "<=" := fleb : py_scope.

(** [x / y] on floats raises on a zero divisor. *)
Definition truediv `{Arith F} (x y : F) : result F :=
  if (y == of_int 0)%py then Raise ZeroDivisionError else Ok (fdiv x y).

(** A decimal literal such as [0.5] or [2.1]: the quotient of two small
    integers, which binary64 division rounds to the literal's value. *)
Definition lit `{Arith F} (n : Z) (d : positive) : F :=
  fdiv (of_int n) (of_int (Z.pos d)).

(** ** [collections.deque(maxlen=n)] *)

Module deque.
Section Deque.
Context {A : Type}.

Record t := Deque { maxlen : nat; items : list A }.

Definition new (n : nat) : t := Deque n [].

Definition len (d : t) : nat := length (items d).

(** [d.append(x)]: add on the right, then drop the leftmost value if the
    length exceeds [maxlen]. *)
Definition append (d : t) (x : A) : t :=
  let l := items d ++ [x] in
  Deque (maxlen d) (if decide (maxlen d < length l) then tail l else l).

Definition extend (d : t) (xs : list A) : t := foldl append d xs.
End Deque.
Arguments t : clear implicits.
End deque.

(** ** [scipy.signal] on second-order sections *)

(** A row [b0, b1, b2, 1, a1, a2] of an [sos] array; [butter] returns
    rows whose fourth entry is 1. *)
Record biquad (F : Type) := Biquad { b0 : F; b1 : F; b2 : F; a1 : F; a2 : F }.
Arguments Biquad {F}.
Arguments b0 {F}.
Arguments b1 {F}.
Arguments b2 {F}.
Arguments a1 {F}.
Arguments a2 {F}.

(** An [sos] array and a [zi] array of shape [(n_sections, 2)]. *)
Abbreviation sos F := (list (biquad F)).
Abbreviation state F := (list (F * F)).

Section Sos.
Context `{Arith F}.
Local Open Scope py_scope.

(** Modelled from the spec: [scipy.signal.sosfilt] is not among the
    sources; each band is a cascade of second-order sections with a
    two-entry delay line per section, advanced one sample at a time
    (transposed direct form II). *)
Fixpoint sos_sample (f : sos F) (z : state F) (x_cur : F) : F * state F :=
  match f, z with
  | s :: f', (z0, z1) :: z' =>
      let x_new := b0 s * x_cur + z0 in
      let z0' := b1 s * x_cur - a1 s * x_new + z1 in
      let z1' := b2 s * x_cur - a2 s * x_new in
      let '(y, zs) := sos_sample f' z' x_new in
      (y, (z0', z1') :: zs)
  | _, _ => (x_cur, [])
  end.

Fixpoint sos_run (f : sos F) (z : state F) (x : list F) : list F * state F :=
  match x with
  | [] => ([], z)
  | x_n :: x' =>
      let '(y_n, z') := sos_sample f z x_n in
      let '(y, zf) := sos_run f z' x' in
      (y_n :: y, zf)
  end.

(** [sosfilt(sos, x, zi=zi)]: a [zi] of the wrong shape is rejected. *)
Definition sosfilt (f : sos F) (x : list F) (z : state F)
    : result (list F * state F) :=
  if decide (length z = length f) then Ok (sos_run f z x) else Raise ValueError.

(** Modelled from the spec: [scipy.signal.lfilter_zi] is not among the
    sources; it returns the state of one section at the steady state of
    its step response, the solution [zi] of [(I - A^T) zi = B] with
    [I - A^T = [[1 + a1, -1], [a2, 1]]] and
    [B = [b1 - a1 b0, b2 - a2 b0]]; a singular system is an error. *)
Definition lfilter_zi (s : biquad F) : result (F * F) :=
  let one := of_int 1 in
  let B0 := b1 s - a1 s * b0 s in
  let B1 := b2 s - a2 s * b0 s in
  let det := one + a1 s + a2 s in
  if det == of_int 0 then Raise LinAlgError
  else Ok (fdiv (B0 + B1) det, fdiv ((one + a1 s) * B1 - a2 s * B0) det).

(** Modelled from the spec: [scipy.signal.sosfilt_zi] is not among the
    sources; the state of each section is [lfilter_zi] of the section
    scaled by the gain at frequency zero of the sections before it. *)
Fixpoint sosfilt_zi_from (scale : F) (f : sos F) : result (state F) :=
  match f with
  | [] => Ok []
  | s :: f' =>
      z ← lfilter_zi s;
      zs ← sosfilt_zi_from
              (scale * fdiv (b0 s + b1 s + b2 s) (of_int 1 + a1 s + a2 s)) f';
      Ok ((scale * z.1, scale * z.2) :: zs)
  end.

Definition sosfilt_zi (f : sos F) : result (state F) := sosfilt_zi_from (of_int 1) f.

(** The gain of the cascade at frequency zero: the product over the
    sections of [b.sum() / a.sum()]. *)
Fixpoint dc_gain_from (scale : F) (f : sos F) : F :=
  match f with
  | [] => scale
  | s :: f' =>
      dc_gain_from (scale * fdiv (b0 s + b1 s + b2 s) (of_int 1 + a1 s + a2 s)) f'
  end.

Definition dc_gain (f : sos F) : F := dc_gain_from (of_int 1) f.
End Sos.

(** ** [FourBandFilters] *)

Module FourBandFilters.
Section Bank.
Context `{Arith F}.
(** The Butterworth design itself (poles, band transform, pairing into
    sections): [butter_design N lo hi] is the [sos] array scipy
    computes for valid normalised cutoffs. *)
Context (butter_design : Z → F → F → sos F).
Local Open Scope py_scope.

(** Modelled from the spec: [scipy.signal.butter] is not among the
    sources; for a digital band-pass filter the cutoffs, normalised to
    Nyquist, are rejected unless [0 < Wn < 1] (a cutoff at or above
    Nyquist is a configuration error) and unless the low cutoff is
    below the high one. *)
Definition butter (N : Z) (Wn : F * F) : result (sos F) :=
  let '(lo_n, hi_n) := Wn in
  if (lo_n <= of_int 0) || (hi_n <= of_int 0)
     || (of_int 1 <= lo_n) || (of_int 1 <= hi_n)
  then Raise ValueError
  else if negb (lo_n < hi_n) then Raise ValueError
  else Ok (butter_design N lo_n hi_n).

Record t := FourBandFilters {
  sample_rate : Z;
  nyquist : F;
  filters : gmap string (sos F);
  zi : gmap string (state F);
}.

Definition bands_hz : list (string * (F * F)) :=
  [ ("delta", (lit 1 2, of_int 4));
    ("alpha", (of_int 8, of_int 13));
    ("beta", (of_int 13, of_int 30));
    ("gamma", (of_int 30, of_int 100)) ].

(** The body of the loop over [bands_hz.items()]. *)
Definition init_band (self : t) (item : string * (F * F)) : result t :=
  let '(name, (lo, hi)) := item in
  lo_n ← truediv lo (nyquist self);
  hi_n ← truediv hi (nyquist self);
  f ← butter 4 (lo_n, hi_n);
  z ← sosfilt_zi f;
  Ok (FourBandFilters (sample_rate self) (nyquist self)
        (<[name := f]> (filters self)) (<[name := z]> (zi self))).

Definition init_bands (self : t) (items : list (string * (F * F))) : result t :=
  foldl (λ acc item, self ← acc; init_band self item) (Ok self) items.

Definition __init__ (sample_rate : Z) : result t :=
  init_bands
    (FourBandFilters sample_rate (fdiv (of_int sample_rate) (of_int 2)) ∅ ∅)
    bands_hz.

(** The body of the loop over [self.filters.items()] in [apply]. *)
Definition apply_band (sample : F)
    (acc : result (gmap string F * gmap string (state F)))
    (item : string * sos F) : result (gmap string F * gmap string (state F)) :=
  '(out, zi) ← acc;
  z ← getitem zi item.1;
  '(y, z') ← sosfilt item.2 [sample] z;
  y0 ← match y with y0 :: _ => Ok y0 | [] => Raise IndexError end;
  Ok (<[item.1 := y0]> out, <[item.1 := z']> zi).

Definition apply (self : t) (sample : F) : result (gmap string F * t) :=
  '(out, zi') ← foldl (apply_band sample) (Ok (∅, zi self))
                   (map_to_list (filters self));
  Ok (out, FourBandFilters (sample_rate self) (nyquist self) (filters self) zi').

(** Feeding samples one at a time through [apply] on one instance. *)
Fixpoint feed (self : t) (samples : list F) : result (list (gmap string F) * t) :=
  match samples with
  | [] => Ok ([], self)
  | x :: rest =>
      '(out, self') ← apply self x;
      '(outs, self'') ← feed self' rest;
      Ok (out :: outs, self'')
  end.

(** Every filter has a state of its own shape. *)
Definition shaped (self : t) : Prop :=
  map_Forall (λ name f, length <$> zi self !! name = Some (length f))
             (filters self).
End Bank.
Arguments t : clear implicits.
End FourBandFilters.

(** ** The two instances of [Arith] *)

(** [float(n)] of an int: the nearest binary64 (an int beyond the range
    gives an infinity here, where Python raises [OverflowError]). *)
Definition float_of_int (z : Z) : float :=
  SF2Prim (binary_normalize prec emax z 0 false).

#[global] Instance float64 : Arith float := {|
  fadd := PrimFloat.add;
  fsub := PrimFloat.sub;
  fmul := PrimFloat.mul;
  fdiv := PrimFloat.div;
  feqb := PrimFloat.eqb;
  fltb := PrimFloat.ltb;
  fleb := PrimFloat.leb;
  of_int := float_of_int;
|}.

#[global] Instance R_eq_dec : EqDecision R := Req_dec_T.
#[global] Instance Rlt_decision (x y : R) : Decision (x < y)%R := Rlt_dec x y.
#[global] Instance Rle_decision (x y : R) : Decision (x <= y)%R := Rle_dec x y.

#[global] Instance real : Arith R := {|
  fadd := Rplus;
  fsub := Rminus;
  fmul := Rmult;
  fdiv := Rdiv;
  feqb x y := bool_decide (x = y);
  fltb x y := bool_decide (x < y)%R;
  fleb x y := bool_decide (x <= y)%R;
  of_int := IZR;
|}.

(** ** [queue.Queue] *)

Module Queue.
Section Queue.
Context {A : Type}.

Record t := Queue { maxsize : Z; items : list A }.

(** [queue.Queue(maxsize=0)]; both scripts call [queue.Queue()]. *)
Definition new (maxsize : Z) : t := Queue maxsize [].

Definition qsize (q : t) : nat := length (items q).

Definition empty (q : t) : bool := bool_decide (qsize q = 0).

(** [0 < self.maxsize <= self._qsize()] *)
Definition full (q : t) : bool :=
  bool_decide (0 < maxsize q)%Z && bool_decide (maxsize q ≤ Z.of_nat (qsize q))%Z.

(** [q.put(item)]: [None] stands for the caller waiting on a full
    queue. *)
Definition put (q : t) (item : A) : option t :=
  if full q then None else Some (Queue (maxsize q) (items q ++ [item])).

Definition get_nowait (q : t) : result (A * t) :=
  match items q with
  | [] => Raise Empty
  | item :: rest => Ok (item, Queue (maxsize q) rest)
  end.

(** No bound was configured: [put] appends without waiting, whatever the
    queue holds. *)
Definition unbounded (q : t) : Prop :=
  maxsize q = 0%Z ∧ ∀ item, put q item = Some (Queue 0 (items q ++ [item])).
End Queue.
Arguments t : clear implicits.
End Queue.

(** ** Text lines *)

(** [str.isspace] on the code points below 256. *)
Definition isspace (c : ascii) : bool :=
  let n := nat_of_ascii c in
  bool_decide (9 ≤ n ≤ 13) || bool_decide (28 ≤ n ≤ 32)
  || bool_decide (n = 133) || bool_decide (n = 160).

Fixpoint lstrip (s : string) : string :=
  match s with
  | String c s' => if isspace c then lstrip s' else s
  | EmptyString => EmptyString
  end.

Fixpoint rstrip (s : string) : string :=
  match s with
  | String c s' =>
      match rstrip s' with
      | EmptyString => if isspace c then EmptyString else String c EmptyString
      | r => String c r
      end
  | EmptyString => EmptyString
  end.

Definition strip (s : string) : string := rstrip (lstrip s).

(** ["," in line] *)
Fixpoint has_comma (s : string) : bool :=
  match s with
  | String c s' => bool_decide (c = ","%char) || has_comma s'
  | EmptyString => false
  end.

(** [line.split(",")[0]] *)
Fixpoint first_field (s : string) : string :=
  match s with
  | String c s' => if bool_decide (c = ","%char) then EmptyString else String c (first_field s')
  | EmptyString => EmptyString
  end.

(** ** The serial readers *)

(** [try: ... except ValueError: handler] *)
Definition except_ValueError {A} (body handler : result A) : result A :=
  match body with
  | Raise ValueError => handler
  | r => r
  end.

(** [try: ... except Exception as e: handler] *)
Definition except_Exception {A} (body handler : result A) : result A :=
  match body with
  | Raise _ => handler
  | r => r
  end.

(** What one pass through a reader loop comes to: it ends, in the state
    it leaves, or it waits in [put]. *)
Inductive pass (S : Type) : Type :=
  | Next (s : S)
  | Waiting.
Arguments Next {S} s.
Arguments Waiting {S}.

Section Parse.
Context {F : Type}.
(** [float(s)] on a string: [None] is [ValueError]. *)
Context (float_of_str : string → option F).

Definition float_ (s : string) : result F :=
  match float_of_str s with
  | Some v => Ok v
  | None => Raise ValueError
  end.

(** [if "," in line: line = line.split(",")[0]] and [val = float(line)]. *)
Definition parse (line : string) : result F :=
  let line := if has_comma line then first_field line else line in
  float_ line.

Definition put_ {S} (q : Queue.t F) (val : F) (k : Queue.t F → S) : result (pass S) :=
  match Queue.put q val with
  | Some q' => Ok (Next (k q'))
  | None => Ok Waiting
  end.

(** One pass through the [while] of [serial_reader] in [bulb_bci.py];
    [readline] is what [ser.readline().decode("utf-8", errors="ignore")]
    returned or raised. *)
Definition serial_reader (q : Queue.t F) (readline : result string)
    : result (pass (Queue.t F)) :=
  except_Exception
    (line ← strip <$> readline;
     if bool_decide (line = EmptyString) then Ok (Next q)
     else
       val ← except_ValueError (Some <$> parse line) (Ok None);
       match val with
       | Some val => put_ q val (λ q, q)
       | None => Ok (Next q)
       end)
    (Ok (Next q)).
End Parse.

Module SerialEEGReader.
Section Reader.
Context {F : Type}.
Context (float_of_str : string → option F).

Record t := SerialEEGReader { val_queue : Queue.t F; last_print : Z }.

(** [SerialEEGReader(port, baud)] *)
Definition __init__ : t := SerialEEGReader (Queue.new 0) 0.

(** One pass through the [while] of [_read_loop]. *)
Definition _read_loop (self : t) (readline : result string) : result (pass t) :=
  except_Exception
    (line ← strip <$> readline;
     if bool_decide (line = EmptyString) then Ok (Next self)
     else
       except_ValueError
         (val ← parse float_of_str line;
          put_ (val_queue self) val
               (λ q, SerialEEGReader q (last_print self + 1)))
         (Ok (Next self)))
    (Ok (Next self)).

(** The [while] of [read_latest] runs at most once per queued value. *)
Fixpoint read_latest_loop (n : nat) (q : Queue.t F) (latest_val : option F)
    : option F * Queue.t F :=
  match n with
  | 0 => (latest_val, q)
  | S n =>
      if Queue.empty q then (latest_val, q)
      else match Queue.get_nowait q with
           | Ok (v, q') => read_latest_loop n q' (Some v)
           | Raise _ => (latest_val, q)
           end
  end.

Definition read_latest (self : t) : option F * t :=
  let '(latest_val, q) :=
    read_latest_loop (Queue.qsize (val_queue self)) (val_queue self) None in
  (latest_val, SerialEEGReader q (last_print self)).
End Reader.
Arguments t : clear implicits.
End SerialEEGReader.

(** A pass of either reader on what [readline] gave, the queue holding
    [items] and the sample counter of [_read_loop] at [n], ends with the
    queue holding [items'] and the counter at [n']. *)
Definition readers_leave {F} (float_of_str : string → option F)
    (items : list F) (n : Z) (readline : result string)
    (items' : list F) (n' : Z) : Prop :=
  SerialEEGReader._read_loop float_of_str
    (SerialEEGReader.SerialEEGReader (Queue.Queue 0 items) n) readline
  = Ok (Next (SerialEEGReader.SerialEEGReader (Queue.Queue 0 items') n'))
  ∧ serial_reader float_of_str (Queue.Queue 0 items) readline
    = Ok (Next (Queue.Queue 0 items')).

(** ** [eeg_four_band_plot.py]: the user configuration *)

Definition SAMPLE_RATE : Z := 250.
Definition BUFFER_SIZE : nat := 2000.

(** ** The buffers and what both loops do with a sample *)

Definition band_names : gset string :=
  {[ "delta"; "alpha"; "beta"; "gamma" ]}.

Module Buffers.
Section Buffers.
Context `{Arith F}.

Record t := Buffers {
  filters : FourBandFilters.t F;
  raw_buffer : deque.t F;
  band_buffers : gmap string (deque.t F);
}.

Definition new (filters : FourBandFilters.t F) : t :=
  Buffers filters (deque.new BUFFER_SIZE)
    (<["gamma" := deque.new BUFFER_SIZE]>
       (<["beta" := deque.new BUFFER_SIZE]>
          (<["alpha" := deque.new BUFFER_SIZE]>
             (<["delta" := deque.new BUFFER_SIZE]> ∅)))).

(** The body of [for name in band_buffers:
    band_buffers[name].append(bands[name])]. *)
Definition append_band (bands : gmap string F)
    (acc : result (gmap string (deque.t F))) (item : string * deque.t F)
    : result (gmap string (deque.t F)) :=
  band_buffers ← acc;
  d ← getitem band_buffers item.1;
  b ← getitem bands item.1;
  Ok (<[item.1 := deque.append d b]> band_buffers).

(** [raw_buffer.append(sample); bands = filters.apply(sample);
    for name in band_buffers: ...], the same in [main] and
    [main_fall]. *)
Definition push (self : t) (sample : F) : result t :=
  let raw_buffer := deque.append (raw_buffer self) sample in
  '(bands, filters) ← FourBandFilters.apply (filters self) sample;
  band_buffers ← foldl (append_band bands) (Ok (band_buffers self))
                   (map_to_list (band_buffers self));
  Ok (Buffers filters raw_buffer band_buffers).

(** The five buffers hold the same number of values, at most
    [BUFFER_SIZE]. *)
Definition aligned (self : t) : Prop :=
  deque.len (raw_buffer self) ≤ BUFFER_SIZE
  ∧ dom (band_buffers self) = band_names
  ∧ map_Forall (λ _ d, deque.len d = deque.len (raw_buffer self))
               (band_buffers self).

(** What [new] sets up and [push] keeps: a state of its own shape for
    each of the four filters, and five buffers of capacity
    [BUFFER_SIZE]. *)
Definition consistent (self : t) : Prop :=
  FourBandFilters.shaped (filters self)
  ∧ dom (FourBandFilters.filters (filters self)) = band_names
  ∧ deque.maxlen (raw_buffer self) = BUFFER_SIZE
  ∧ map_Forall (λ _ d, deque.maxlen d = BUFFER_SIZE) (band_buffers self).

(** What holds of the buffers when [n] samples have been retained. *)
Definition settled (n : nat) (self : t) : Prop :=
  consistent self ∧ aligned self
  ∧ deque.len (raw_buffer self) = n `min` BUFFER_SIZE.

(** [n] samples pushed one after the other. *)
Fixpoint pushes (self : t) (samples : list F) : result t :=
  match samples with
  | [] => Ok self
  | x :: rest => self ← push self x; pushes self rest
  end.
End Buffers.
Arguments t : clear implicits.
End Buffers.

(** ** [main]: the producer thread and the consumer loop *)

Module Main.
Section Main.
Context `{Arith F}.
Context (butter_design : Z → F → F → sos F).
Context (float_of_str : string → option F).

Record t := Main {
  reader : SerialEEGReader.t F;
  bufs : Buffers.t F;
  sample_count : Z;
}.

(** [main] up to the loop, the serial port open. *)
Definition start : result t :=
  filters ← FourBandFilters.__init__ butter_design SAMPLE_RATE;
  Ok (Main SerialEEGReader.__init__ (Buffers.new filters) 0).

(** One pass through [while plt.fignum_exists(fig.number)]. *)
Definition loop (st : t) : result t :=
  let '(sample, reader) := SerialEEGReader.read_latest (reader st) in
  match sample with
  | None => Ok (Main reader (bufs st) (sample_count st))
  | Some sample =>
      bufs ← Buffers.push (bufs st) sample;
      Ok (Main reader bufs (sample_count st + 1))
  end.

(** The reader thread and the loop take turns on the queue. *)
Inductive step : t → t → Prop :=
  | step_read st readline r :
      SerialEEGReader._read_loop float_of_str (reader st) readline = Ok (Next r) →
      step st (Main r (bufs st) (sample_count st))
  | step_loop st st' :
      loop st = Ok st' →
      step st st'.

Inductive reachable : t → Prop :=
  | reachable_start st : start = Ok st → reachable st
  | reachable_step st st' : reachable st → step st st' → reachable st'.
End Main.
Arguments t : clear implicits.
End Main.

(** ** [main_fall]: the synthetic generator *)

Module MainFall.
Section MainFall.
Context `{Arith F}.
Context (butter_design : Z → F → F → sos F).
(** [np.sin], [np.pi], and [np.random.normal(loc, scale)] on the state
    [G] of numpy's global generator, which the script never seeds. *)
Context (sin : F → F) (pi : F).
Context {G : Type} (normal : G → F → F → F * G).
Local Open Scope py_scope.

Record t := MainFall {
  bufs : Buffers.t F;
  time : F;
  seg_idx : nat;
  seg_count : Z;
  rng : G;
}.

Definition dt : F := fdiv (of_int 1) (of_int SAMPLE_RATE).
(** [int(segment_len_s * SAMPLE_RATE)], that is [int(8.0 * 250)]. *)
Definition segment_samples : Z := 2000.
Definition seg_names : list string := ["low"; "moderate"; "high"].

Definition f_delta : F := of_int 2.
Definition f_alpha : F := of_int 10.
Definition f_beta : F := of_int 20.
Definition f_gamma : F := of_int 40.

(** [(a_delta, a_alpha, a_beta, a_gamma, noise_scale)] by segment. *)
Definition amplitudes (seg : string) : F * F * F * F * F :=
  if bool_decide (seg = "low") then
    (of_int 30, of_int 20, of_int 10, of_int 5, of_int 5)
  else if bool_decide (seg = "moderate") then
    (of_int 60, of_int 40, of_int 25, of_int 15, of_int 10)
  else
    (of_int 120, of_int 90, of_int 60, of_int 40, of_int 15).

(** The four sinusoids of [raw], before the noise is added. *)
Definition tones (seg : string) (t : F) : F :=
  let '(a_delta, a_alpha, a_beta, a_gamma, _) := amplitudes seg in
  a_delta * sin (of_int 2 * pi * f_delta * t)
  + a_alpha * sin (of_int 2 * pi * f_alpha * t + lit 7 10)
  + a_beta * sin (of_int 2 * pi * f_beta * t + lit 13 10)
  + a_gamma * sin (of_int 2 * pi * f_gamma * t + lit 21 10).

Definition noise_scale (seg : string) : F := (amplitudes seg).2.

Definition start (g : G) : result t :=
  filters ← FourBandFilters.__init__ butter_design SAMPLE_RATE;
  Ok (MainFall (Buffers.new filters) (of_int 0) 0 0 g).

(** One pass through the [while]: the raw sample and the next state. *)
Definition loop (st : t) : result (F * t) :=
  seg ← match seg_names !! seg_idx st with
        | Some seg => Ok seg
        | None => Raise IndexError
        end;
  let '(noise, rng) := normal (rng st) (of_int 0) (noise_scale seg) in
  let raw := tones seg (time st) + noise in
  bufs ← Buffers.push (bufs st) raw;
  let seg_count := (seg_count st + 1)%Z in
  let '(seg_count, seg_idx) :=
    if bool_decide (segment_samples ≤ seg_count)%Z
    then (0%Z, (seg_idx st + 1) `mod` length seg_names)
    else (seg_count, seg_idx st) in
  Ok (raw, MainFall bufs (time st + dt) seg_idx seg_count rng).

(** [n] passes, with the raw samples in the order they were made. *)
Fixpoint run (n : nat) (st : t) : result (list F * t) :=
  match n with
  | 0 => Ok ([], st)
  | S n =>
      '(raw, st) ← loop st;
      '(raws, st) ← run n st;
      Ok (raw :: raws, st)
  end.

(** The segment and the time of tick [k], as the counters make them. *)
Definition seg_of_tick (k : nat) : string :=
  default "high" (seg_names !! ((k / Z.to_nat segment_samples) `mod` 3)).

Fixpoint time_of_tick (k : nat) : F :=
  match k with
  | 0 => of_int 0
  | S k => time_of_tick k + dt
  end.

(** The four sinusoids at tick [k]. *)
Definition signal (k : nat) : F := tones (seg_of_tick k) (time_of_tick k).

(** What [np.random.normal] returns at the ticks [k], [k + 1], ... of a
    run that finds the generator in the state [g]. *)
Fixpoint noises (k : nat) (g : G) (n : nat) : list F :=
  match n with
  | 0 => []
  | S n =>
      let '(noise, g') := normal g (of_int 0) (noise_scale (seg_of_tick k)) in
      noise :: noises (S k) g' n
  end.

(** The loop has made [k] passes. *)
Definition at_tick (k : nat) (st : t) : Prop :=
  seg_idx st = (k / Z.to_nat segment_samples) `mod` 3
  ∧ seg_count st = Z.of_nat (k `mod` Z.to_nat segment_samples)
  ∧ time st = time_of_tick k
  ∧ ∃ m, Buffers.settled m (bufs st).
End MainFall.
Arguments t : clear implicits.
End MainFall.

(** ** The end of a pass through either loop *)

(** [at_boundary n b]: [b] are the buffers when a pass through the loop
    of [main] or of [main_fall] has ended, [n] samples having been
    retained since the start. *)
Inductive at_boundary `{Arith F} (butter_design : Z → F → F → sos F)
    (float_of_str : string → option F) (sin : F → F) (pi : F)
    {G : Type} (normal : G → F → F → F * G) : nat → Buffers.t F → Prop :=
  | boundary_main st :
      Main.reachable butter_design float_of_str st →
      at_boundary butter_design float_of_str sin pi normal
        (Z.to_nat (Main.sample_count st)) (Main.bufs st)
  | boundary_main_fall g st0 n raws st :
      MainFall.start butter_design g = Ok st0 →
      MainFall.run sin pi normal n st0 = Ok (raws, st) →
      at_boundary butter_design float_of_str sin pi normal n (MainFall.bufs st).

(** ** [bulb_bci.py] *)

Module Bulb.
Local Open Scope float_scope.

Definition THRESHOLD : float := 120.
Definition SMOOTH_WINDOW : nat := 8.
Definition MAX_SIGNAL : float := 500.
Definition USE_SMOOTH : bool := false.

(** [int(x)] on a float: towards zero; infinities and NaN are errors. *)
Definition int_ (x : float) : result Z :=
  match Prim2SF x with
  | S754_zero _ => Ok 0%Z
  | S754_infinity _ => Raise OverflowError
  | S754_nan => Raise ValueError
  | S754_finite s m e => Ok (cond_Zopp s (Z.shiftl (Z.pos m) e))
  end.

(** [sum(window)] *)
Definition sum (l : list float) : float := foldl PrimFloat.add 0 l.

Definition compute_moving_average (window_deque : deque.t float) (new_val : float)
    : result (float * deque.t float) :=
  let window_deque := deque.append window_deque new_val in
  avg ← truediv (sum (deque.items window_deque))
                (float_of_int (Z.of_nat (deque.len window_deque)));
  Ok (avg, window_deque).

Definition map_to_brightness (value_abs threshold max_signal : float) : result Z :=
  if value_abs <=? threshold then Ok 0%Z
  else
    let denom :=
      if negb (max_signal - threshold =? 0) then max_signal - threshold else 1 in
    normalized ← truediv (value_abs - threshold) denom;
    level ← int_ (normalized * 10);
    let level := if bool_decide (level < 0)%Z then 0%Z else level in
    let level := if bool_decide (level > 10)%Z then 10%Z else level in
    Ok level.

Record t := Bulb {
  val_queue : Queue.t float;
  window : deque.t float;
  brightness_level : Z;
  texts : option (float * float);
}.

(** [run_app] up to [root.mainloop()], the serial port open. *)
Definition start : t := Bulb (Queue.new 0) (deque.new SMOOTH_WINDOW) 0 None.

(** [BulbApp.set_brightness]: [level = max(0, min(10, int(level)))]. *)
Definition set_brightness (level : Z) : Z := Z.max 0 (Z.min 10 level).

(** The [while not val_queue.empty()] of [poll_queue_and_update]; it
    runs at most once per queued value. *)
Fixpoint poll_loop (n : nat) (q : Queue.t float) (window : deque.t float)
    (raw_val smooth_val : option float) (updated : bool)
    : result (Queue.t float * deque.t float * option float * option float * bool) :=
  match n with
  | 0 => Ok (q, window, raw_val, smooth_val, updated)
  | S n =>
      if Queue.empty q then Ok (q, window, raw_val, smooth_val, updated)
      else match Queue.get_nowait q with
           | Raise _ => Ok (q, window, raw_val, smooth_val, updated)
           | Ok (v, q') =>
               '(avg, window') ← compute_moving_average window v;
               poll_loop n q' window' (Some v) (Some avg) true
           end
  end.

Definition poll_queue_and_update (app : t) : result t :=
  '(q, window, raw_val, smooth_val, updated) ←
    poll_loop (Queue.qsize (val_queue app)) (val_queue app) (window app)
              None None false;
  match updated, raw_val, smooth_val with
  | true, Some raw_val, Some smooth_val =>
      let used_value := if USE_SMOOTH then smooth_val else raw_val in
      let used_abs := abs used_value in
      level ← map_to_brightness used_abs THRESHOLD MAX_SIGNAL;
      Ok (Bulb q window (set_brightness level) (Some (raw_val, smooth_val)))
  | _, _, _ => Ok (Bulb q window (brightness_level app) (texts app))
  end.

(** The reader thread and the polling callback take turns on the queue. *)
Inductive step (float_of_str : string → option float) : t → t → Prop :=
  | step_read app readline q :
      serial_reader float_of_str (val_queue app) readline = Ok (Next q) →
      step float_of_str app (Bulb q (window app) (brightness_level app) (texts app))
  | step_poll app app' :
      poll_queue_and_update app = Ok app' →
      step float_of_str app app'.

Inductive reachable (float_of_str : string → option float) : t → Prop :=
  | reachable_start : reachable float_of_str start
  | reachable_step app app' :
      reachable float_of_str app → step float_of_str app app' →
      reachable float_of_str app'.
End Bulb.

(** ** Stand-ins to run the scripts *)

Module Demo.
Section Design.
Context `{Arith F}.
Local Open Scope py_scope.

(** In place of the Butterworth design: two sections sharing a pair of
    poles of radius [1 - bw/2], the first with both zeros at [-1], the
    second with both zeros at [1]. *)
Definition butter_design (N : Z) (lo hi : F) : sos F :=
  let bw := hi - lo in
  let c := fdiv (lo + hi) (of_int 2) in
  let r := of_int 1 - fdiv bw (of_int 2) in
  let a1 := of_int 0 - of_int 2 * r * (of_int 1 - of_int 2 * c * c) in
  let a2 := r * r in
  let g := fdiv (bw * bw) (of_int 4) in
  [ Biquad g (of_int 2 * g) g a1 a2;
    Biquad (of_int 1) (of_int (-2)) (of_int 1) a1 a2 ].
End Design.

(** In place of [float]: unsigned decimal integers only. *)
Fixpoint digits (s : string) (acc : Z) : option Z :=
  match s with
  | EmptyString => Some acc
  | String c s' =>
      let n := Z.of_nat (nat_of_ascii c) in
      if bool_decide (48 ≤ n ≤ 57)%Z then digits s' (10 * acc + (n - 48)) else None
  end.

Definition float_of_str (s : string) : option float :=
  match s with
  | EmptyString => None
  | _ => float_of_int <$> digits s 0
  end.

(** The bank of [main] over binary64, with the stand-in design. *)
Definition bank : FourBandFilters.t float :=
  match FourBandFilters.__init__ butter_design SAMPLE_RATE with
  | Ok self => self
  | Raise _ => FourBandFilters.FourBandFilters SAMPLE_RATE 125%float ∅ ∅
  end.

(** In place of [np.sin] and [np.pi] on binary64: the Taylor polynomial
    of degree 7 and the double nearest to pi. *)
Definition sin (x : float) : float :=
  let x2 := (x * x)%float in
  (x * (1 - x2 / 6 * (1 - x2 / 20 * (1 - x2 / 42))))%float.
Definition pi : float := 0x1.921fb54442d18p+1%float.

(** [np.random.normal(loc, scale)], the state of the generator being
    the standard normal variates it is going to return. *)
Definition normal `{Arith F} (g : nat → F) (loc scale : F) : F * (nat → F) :=
  (fadd loc (fmul scale (g 0)), λ n, g (S n)).
End Demo.

(** ** Over the reals *)


(** The state [z] of the filter [f] is a steady state for the constant
    input [x0]: one more sample [x0] leaves the state as it is, and comes
    out as the response of the filter to the constant [x0]. *)
Definition steady (f : sos R) (z : state R) (x0 : R) : Prop :=
  sosfilt f [x0] z = Ok ([(dc_gain f * x0)%R], z).

(** ** [BulbApp.set_brightness] *)

Module BulbApp.
Local Open Scope float_scope.

(** [f"{n:02x}"]: lowercase hexadecimal, padded with a zero to two
    characters. *)
Definition format_02x (n : Z) : string :=
  let s := NilZero.string_of_int (Z.to_hex_int n) in
  if bool_decide (String.length s < 2)%nat then String "0" s else s.

(** The level kept, and the fill of the bulb and of the halo on the
    canvas. *)
Record t := BulbApp { brightness_level : Z; bulb : string; halo : string }.

(** [BulbApp.__init__]: the bulb black, no halo. *)
Definition __init__ : t := BulbApp 0 "black" "".

Definition set_brightness (self : t) (level : Z) : result t :=
  let level := Z.max 0 (Z.min 10 level) in
  intensity ← Bulb.int_ (float_of_int level / 10 * 255);
  let intensity := Z.max 0 (Z.min 255 intensity) in
  let color_hex :=
    String "#" (format_02x intensity +:+ format_02x intensity +:+ format_02x 20) in
  halo_int ← Bulb.int_ (float_of_int intensity * 1);
  let halo_int := Z.min 255 halo_int in
  let halo_hex :=
    String "#" (format_02x halo_int +:+ format_02x halo_int +:+ format_02x 10) in
  if bool_decide (level = 0)%Z then Ok (BulbApp level "black" "")
  else Ok (BulbApp level color_hex halo_hex).
End BulbApp.

(** ** Passes of the readers over the lines of a stream *)

Section Passes.
Context {F : Type}.
Context (float_of_str : string → option F).

(** The passes of [_read_loop] over what successive [readline] calls
    give. *)
Fixpoint read_loop_passes (self : SerialEEGReader.t F) (readlines : list (result string))
    : result (pass (SerialEEGReader.t F)) :=
  match readlines with
  | [] => Ok (Next self)
  | readline :: rest =>
      p ← SerialEEGReader._read_loop float_of_str self readline;
      match p with
      | Next self => read_loop_passes self rest
      | Waiting => Ok Waiting
      end
  end.

(** The same for [serial_reader]. *)
Fixpoint serial_reader_passes (q : Queue.t F) (readlines : list (result string))
    : result (pass (Queue.t F)) :=
  match readlines with
  | [] => Ok (Next q)
  | readline :: rest =>
      p ← serial_reader float_of_str q readline;
      match p with
      | Next q => serial_reader_passes q rest
      | Waiting => Ok Waiting
      end
  end.

(** The number a line stands for: none for a read error, for an empty
    line and for a line whose text, up to the first comma if it has one,
    is not a number. *)
Definition line_value (readline : result string) : option F :=
  match readline with
  | Ok text =>
      let line := strip text in
      if bool_decide (line = EmptyString) then None
      else float_of_str (if has_comma line then first_field line else line)
  | Raise _ => None
  end.
End Passes.

(** * Properties *)

(** ** Results *)

Lemma bind_Ok {A B} (m : result A) (f : A → result B) (b : B) :
  m ≫= f = Ok b ↔ ∃ a, m = Ok a ∧ f a = Ok b.
Proof.
  destruct m as [a|e]; simpl; split.
  - eauto.
  - intros (a' & [= ->] & ?); done.
  - done.
  - intros (a' & ? & ?); done.
Qed.

Lemma getitem_Ok {V} (d : gmap string V) k v : d !! k = Some v → getitem d k = Ok v.
Proof. unfold getitem. by intros ->. Qed.

(** ** The section cascade and [FourBandFilters.apply] *)

Section SosFacts.
Context `{Arith F}.

Lemma sos_sample_length (f : sos F) z x :
  length z = length f → length (sos_sample f z x).2 = length f.
Proof.
  revert z x. induction f as [|s f IH]; intros [|[z0 z1] z] x Hlen; simpl in *; try done.
  destruct (sos_sample f z _) as [y zs] eqn:E. simpl.
  f_equal. specialize (IH z (fadd (fmul (b0 s) x) z0)). rewrite E in IH. apply IH. lia.
Qed.

Lemma sos_run_app (f : sos F) z xs ys :
  sos_run f z (xs ++ ys) =
    let '(a, z1) := sos_run f z xs in
    let '(b, z2) := sos_run f z1 ys in
    (a ++ b, z2).
Proof.
  revert z. induction xs as [|x xs IH]; intros z; simpl.
  - by destruct (sos_run f z ys).
  - destruct (sos_sample f z x) as [y z']. rewrite IH.
    destruct (sos_run f z' xs) as [a z1]. by destruct (sos_run f z1 ys).
Qed.

Lemma sos_run_length (f : sos F) z xs :
  length z = length f → length (sos_run f z xs).2 = length f.
Proof.
  revert z. induction xs as [|x xs IH]; intros z Hz; simpl; [done|].
  pose proof (sos_sample_length f z x Hz) as Hs.
  destruct (sos_sample f z x) as [y z']. specialize (IH z' Hs).
  by destruct (sos_run f z' xs).
Qed.

Lemma sosfilt_one (f : sos F) z x :
  length z = length f →
  sosfilt f [x] z = Ok ([(sos_sample f z x).1], (sos_sample f z x).2).
Proof.
  intros Hz. unfold sosfilt. rewrite decide_True by done. simpl.
  by destruct (sos_sample f z x).
Qed.
End SosFacts.

Section ApplyFacts.
Context `{Arith F}.
Import FourBandFilters.

Lemma apply_band_Ok (x : F) out (z : gmap string (state F)) k (f : sos F) zk :
  z !! k = Some zk →
  length zk = length f →
  apply_band x (Ok (out, z)) (k, f) =
    Ok (<[k := (sos_sample f zk x).1]> out, <[k := (sos_sample f zk x).2]> z).
Proof.
  intros Hzk Hlen. unfold apply_band. cbn.
  rewrite (getitem_Ok _ _ _ Hzk). cbn.
  by rewrite (sosfilt_one f zk x Hlen).
Qed.

Lemma apply_band_fold (x : F) (items : list (string * sos F))
    (out : gmap string F) (z : gmap string (state F)) :
  NoDup items.*1 →
  (∀ k f, (k, f) ∈ items → length <$> z !! k = Some (length f)) →
  ∃ out' z',
    foldl (apply_band x) (Ok (out, z)) items = Ok (out', z')
    ∧ (∀ k f, (k, f) ∈ items →
         ∃ zk, z !! k = Some zk
               ∧ out' !! k = Some (sos_sample f zk x).1
               ∧ z' !! k = Some (sos_sample f zk x).2)
    ∧ (∀ k, k ∉ items.*1 → out' !! k = out !! k ∧ z' !! k = z !! k).
Proof.
  revert out z. induction items as [|[k f] items IH]; intros out z Hnd Hsh.
  - exists out, z. split; [done|]. split; [|done].
    intros k f Hin. by apply elem_of_nil in Hin.
  - rewrite fmap_cons in Hnd. apply NoDup_cons in Hnd as [Hk Hnd].
    change ((k, f).1) with k in Hk.
    assert (∀ f', (k, f') ∈ items → False) as Hfresh.
    { intros f' Hin. apply Hk. apply list_elem_of_fmap. by exists (k, f'). }
    pose proof (Hsh k f (list_elem_of_here _ _)) as Hkf.
    destruct (z !! k) as [zk|] eqn:Hzk; [|done].
    injection Hkf as Hlen.
    cbn [foldl]. rewrite (apply_band_Ok x out z k f zk Hzk Hlen).
    destruct (IH (<[k := (sos_sample f zk x).1]> out)
                 (<[k := (sos_sample f zk x).2]> z) Hnd) as (out' & z' & Hf & Hin & Hout).
    { intros k' f' Hin'. rewrite lookup_insert_ne.
      - apply Hsh. by apply list_elem_of_further.
      - intros ->. by apply (Hfresh f'). }
    exists out', z'. split; [done|]. split.
    + intros k' f' Hin'. apply elem_of_cons in Hin' as [[= -> ->]|Hin'].
      * exists zk. split; [done|]. destruct (Hout k Hk) as [-> ->].
        by rewrite !lookup_insert_eq.
      * destruct (Hin k' f' Hin') as (zk' & Hz' & ? & ?).
        exists zk'. split; [|done].
        rewrite lookup_insert_ne in Hz'; [done|].
        intros ->. by apply (Hfresh f').
    + intros k' Hk'. rewrite fmap_cons in Hk'.
      apply not_elem_of_cons in Hk' as [Hne Hk'].
      destruct (Hout k' Hk') as [-> ->]. by rewrite !lookup_insert_ne.
Qed.

(** One call of [apply] on a bank whose states have the shape of their
    filters: every band moves by one sample of its own cascade. *)
Lemma apply_spec (self : t F) (x : F) :
  shaped self →
  ∃ out z',
    apply self x = Ok (out, FourBandFilters (sample_rate self) (nyquist self) (filters self) z')
    ∧ dom out = dom (filters self)
    ∧ (∀ k f, filters self !! k = Some f →
         ∃ zk, zi self !! k = Some zk
               ∧ out !! k = Some (sos_sample f zk x).1
               ∧ z' !! k = Some (sos_sample f zk x).2).
Proof.
  intros Hsh.
  destruct (apply_band_fold x (map_to_list (filters self)) ∅ (zi self))
    as (out & z' & Hf & Hin & Hout).
  { apply NoDup_fst_map_to_list. }
  { intros k f Hkf. apply elem_of_map_to_list in Hkf. by apply Hsh. }
  exists out, z'. unfold apply. rewrite Hf. simpl. split; [done|]. split.
  - apply set_eq. intros k. rewrite !elem_of_dom. split.
    + intros [y Hy]. destruct (filters self !! k) as [f|] eqn:Hk; [by eexists|].
      destruct (Hout k) as [Ho _].
      { intros Hel. apply list_elem_of_fmap in Hel as ([k' f'] & -> & Hel).
        apply elem_of_map_to_list in Hel. simpl in Hk. congruence. }
      rewrite Ho, lookup_empty in Hy. done.
    + intros [f Hk]. apply elem_of_map_to_list in Hk.
      destruct (Hin k f Hk) as (zk & _ & -> & _). by eexists.
  - intros k f Hk. apply Hin. by apply elem_of_map_to_list.
Qed.
End ApplyFacts.

Section Streaming.
Context `{Arith F}.
Import FourBandFilters.

Lemma shaped_lookup (self : t F) k f :
  shaped self → filters self !! k = Some f →
  ∃ zk, zi self !! k = Some zk ∧ length zk = length f.
Proof.
  intros Hsh Hk. specialize (Hsh k f Hk). cbn beta in Hsh.
  destruct (zi self !! k) as [zk|]; [|done].
  exists zk. split; [done|]. by injection Hsh.
Qed.

Lemma sosfilt_cons (f : sos F) z x xs :
  length z = length f →
  sosfilt f (x :: xs) z =
    '(ys, zf) ← sosfilt f xs (sos_sample f z x).2;
    Ok ((sos_sample f z x).1 :: ys, zf).
Proof.
  intros Hz. unfold sosfilt.
  rewrite decide_True by done.
  rewrite decide_True by (by apply sos_sample_length).
  cbn. destruct (sos_sample f z x) as [y z']. cbn.
  by destruct (sos_run f z' xs).
Qed.

(** C1. Feeding the samples one at a time through [apply] on one
    instance, the state [zi] carried from call to call, gives for every
    band the outputs, sample by sample, and the final state of one
    [sosfilt] call on the whole sequence from the same initial state. *)
Theorem apply_streaming_is_batch (self : t F) (samples : list F) :
  shaped self →
  ∃ outs self',
    feed self samples = Ok (outs, self')
    ∧ filters self' = filters self
    ∧ ∀ name f z,
        filters self !! name = Some f →
        zi self !! name = Some z →
        ∃ y zf,
          sosfilt f samples z = Ok (y, zf)
          ∧ (λ out : gmap string F, out !! name) <$> outs = Some <$> y
          ∧ zi self' !! name = Some zf.
Proof.
  revert self. induction samples as [|x xs IH]; intros self Hsh.
  - exists [], self. split; [done|]. split; [done|].
    intros name f z Hf Hz. exists [], z.
    destruct (shaped_lookup self name f Hsh Hf) as (zk & Hzk & Hlen).
    assert (zk = z) as -> by congruence.
    unfold sosfilt. rewrite decide_True by done. done.
  - destruct (apply_spec self x Hsh) as (out & z' & Hap & _ & Hbands).
    set (self1 := FourBandFilters (sample_rate self) (nyquist self) (filters self) z') in *.
    assert (shaped self1) as Hsh1.
    { intros k f Hk. cbn in Hk |- *.
      destruct (Hbands k f Hk) as (zk & Hzk & _ & ->). cbn. f_equal.
      apply sos_sample_length.
      destruct (shaped_lookup self k f Hsh Hk) as (zk' & ? & ?). congruence. }
    destruct (IH self1 Hsh1) as (outs & self' & Hfeed & Hfil & Hrest).
    exists (out :: outs), self'. split.
    { cbn [feed]. rewrite Hap. cbn. rewrite Hfeed. done. }
    split; [done|].
    intros name f z Hf Hz.
    destruct (Hbands name f Hf) as (zk & Hzk & Hout & Hz').
    assert (zk = z) as -> by congruence.
    destruct (Hrest name f _ Hf Hz') as (y & zf & Hbatch & Houts & Hzf).
    exists ((sos_sample f z x).1 :: y), zf. split; [|split; [|done]].
    + rewrite sosfilt_cons.
      * rewrite Hbatch. done.
      * destruct (shaped_lookup self name f Hsh Hf) as (zk' & ? & ?). congruence.
    + rewrite !fmap_cons. by rewrite Hout, Houts.
Qed.
End Streaming.

(** ** [deque] *)

Section DequeFacts.
Context {A : Type}.
Implicit Types (d : deque.t A) (x : A) (xs : list A).

Lemma deque_append_maxlen d x : deque.maxlen (deque.append d x) = deque.maxlen d.
Proof. done. Qed.

Lemma deque_append_items d x :
  deque.len d ≤ deque.maxlen d →
  deque.items (deque.append d x) =
    drop (S (deque.len d) - deque.maxlen d) (deque.items d ++ [x]).
Proof.
  unfold deque.len, deque.append. intros Hle. cbn.
  rewrite length_app. cbn. case_decide.
  - replace (length (deque.items d) + 1 - deque.maxlen d) with 1 by lia.
    replace (S (length (deque.items d)) - deque.maxlen d) with 1 by lia.
    by destruct (deque.items d ++ [x]).
  - by replace (S (length (deque.items d)) - deque.maxlen d) with 0 by lia.
Qed.

Lemma deque_append_len d x :
  deque.len d ≤ deque.maxlen d →
  deque.len (deque.append d x) = S (deque.len d) `min` deque.maxlen d.
Proof.
  intros Hle. unfold deque.len at 1. rewrite deque_append_items by done.
  rewrite length_drop, length_app. unfold deque.len in *. cbn [length]. lia.
Qed.

Lemma deque_extend_items d xs :
  deque.len d ≤ deque.maxlen d →
  deque.items (deque.extend d xs) =
    drop (deque.len d + length xs - deque.maxlen d) (deque.items d ++ xs).
Proof.
  revert d. induction xs as [|x xs IH]; intros d Hle.
  - cbn. rewrite app_nil_r. unfold deque.len in *.
    by replace (length (deque.items d) + 0 - deque.maxlen d) with 0 by lia.
  - unfold deque.extend. cbn [foldl]. fold (deque.extend (deque.append d x) xs).
    pose proof (deque_append_len d x Hle) as Hlen.
    rewrite IH by (rewrite Hlen, deque_append_maxlen; lia).
    rewrite Hlen, deque_append_maxlen, deque_append_items by done.
    rewrite (cons_middle x (deque.items d) xs), (assoc_L (++)).
    set (l := deque.items d ++ [x]).
    assert (length l = S (deque.len d)) as Hl.
    { unfold l, deque.len. rewrite length_app. cbn. lia. }
    rewrite <- (drop_app_le l xs) by lia.
    rewrite drop_drop. f_equal. cbn [length]. lia.
Qed.

Lemma deque_extend_maxlen d xs : deque.maxlen (deque.extend d xs) = deque.maxlen d.
Proof.
  revert d. induction xs as [|x xs IH]; intros d; [done|].
  unfold deque.extend. cbn [foldl]. fold (deque.extend (deque.append d x) xs).
  by rewrite IH.
Qed.

End DequeFacts.


(** ** [FourBandFilters.__init__] *)

Section InitFacts.
Context `{Arith F}.
Context (butter_design : Z → F → F → sos F).
Import FourBandFilters.

Lemma sosfilt_zi_from_length scale (f : sos F) zs :
  sosfilt_zi_from scale f = Ok zs → length zs = length f.
Proof.
  revert scale zs. induction f as [|s f IH]; intros scale zs.
  - by intros [= <-].
  - cbn [sosfilt_zi_from]. intros Hz.
    apply bind_Ok in Hz as (z & _ & Hz). apply bind_Ok in Hz as (zs' & Hzs & [= <-]).
    cbn [length]. f_equal. by eapply IH.
Qed.

Lemma init_band_Ok (self self' : t F) name lo hi :
  init_band butter_design self (name, (lo, hi)) = Ok self' →
  ∃ lo_n hi_n f z,
    truediv lo (nyquist self) = Ok lo_n
    ∧ truediv hi (nyquist self) = Ok hi_n
    ∧ butter butter_design 4 (lo_n, hi_n) = Ok f
    ∧ sosfilt_zi f = Ok z
    ∧ self' = FourBandFilters (sample_rate self) (nyquist self)
                (<[name := f]> (filters self)) (<[name := z]> (zi self)).
Proof.
  unfold init_band. intros Hi.
  apply bind_Ok in Hi as (lo_n & Hlo & Hi). apply bind_Ok in Hi as (hi_n & Hhi & Hi).
  apply bind_Ok in Hi as (f & Hf & Hi). apply bind_Ok in Hi as (z & Hz & [= <-]).
  by exists lo_n, hi_n, f, z.
Qed.

Lemma init_bands_Raise (items : list (string * (F * F))) e :
  foldl (λ acc item, acc ≫= λ self, init_band butter_design self item) (Raise e) items
  = Raise e.
Proof. induction items as [|item items IH]; [done|]. cbn [foldl]. apply IH. Qed.

Lemma init_bands_cons (self : t F) item items :
  init_bands butter_design self (item :: items) =
    init_band butter_design self item ≫= λ self, init_bands butter_design self items.
Proof.
  unfold init_bands. cbn [foldl].
  change (Ok self ≫= λ self, init_band butter_design self item)
    with (init_band butter_design self item).
  destruct (init_band butter_design self item) as [self1|e]; [done|].
  apply init_bands_Raise.
Qed.

Lemma init_bands_shaped (self self' : t F) items :
  init_bands butter_design self items = Ok self' →
  shaped self →
  shaped self'
  ∧ dom (filters self') = dom (filters self) ∪ list_to_set items.*1.
Proof.
  revert self. induction items as [|[name [lo hi]] items IH]; intros self.
  - intros [= <-] Hsh. split; [done|]. cbn. set_solver.
  - rewrite init_bands_cons. intros Hi Hsh.
    apply bind_Ok in Hi as (self1 & H1 & Hi).
    apply init_band_Ok in H1 as (lo_n & hi_n & f & z & _ & _ & _ & Hz & ->).
    apply IH in Hi as [Hsh' Hdom].
    + split; [done|]. rewrite Hdom. cbn. rewrite dom_insert_L. set_solver.
    + intros k f' Hk. cbn in Hk |- *.
      destruct (decide (name = k)) as [->|Hne].
      * rewrite lookup_insert_eq in Hk. injection Hk as <-.
        rewrite lookup_insert_eq. cbn. f_equal. by eapply sosfilt_zi_from_length.
      * rewrite lookup_insert_ne in Hk by done. rewrite lookup_insert_ne by done.
        by apply Hsh.
Qed.

(** A constructed bank holds the four bands, each with a state of the
    shape of its filter. *)
Lemma init_shaped sample_rate (self : t F) :
  __init__ butter_design sample_rate = Ok self →
  shaped self ∧ dom (filters self) = band_names.
Proof.
  unfold __init__. intros Hi. apply init_bands_shaped in Hi as [Hsh Hdom].
  - split; [done|]. rewrite Hdom. cbn. unfold band_names. set_solver.
  - intros k f Hk. cbn in Hk. by rewrite lookup_empty in Hk.
Qed.
End InitFacts.

Section Seeded.
Context `{Arith F}.
Context (butter_design : Z → F → F → sos F).
Import FourBandFilters.




End Seeded.

(** ** [Buffers.push] *)

Section PushFacts.
Context `{Arith F}.
Import Buffers.

Lemma append_band_Ok (bands : gmap string F) (bb : gmap string (deque.t F)) k d d' y :
  bb !! k = Some d → bands !! k = Some y →
  append_band bands (Ok bb) (k, d') = Ok (<[k := deque.append d y]> bb).
Proof.
  intros Hd Hy. unfold append_band. cbn.
  by rewrite (getitem_Ok _ _ _ Hd), (getitem_Ok _ _ _ Hy).
Qed.

Lemma append_band_fold (bands : gmap string F)
    (items : list (string * deque.t F)) (bb : gmap string (deque.t F)) :
  NoDup items.*1 →
  (∀ k d, (k, d) ∈ items → bb !! k = Some d ∧ is_Some (bands !! k)) →
  ∃ bb',
    foldl (append_band bands) (Ok bb) items = Ok bb'
    ∧ (∀ k d, (k, d) ∈ items →
         ∃ y, bands !! k = Some y ∧ bb' !! k = Some (deque.append d y))
    ∧ (∀ k, k ∉ items.*1 → bb' !! k = bb !! k).
Proof.
  revert bb. induction items as [|[k d] items IH]; intros bb Hnd Hin.
  - exists bb. split; [done|]. split; [|done].
    intros k d Hkd. by apply elem_of_nil in Hkd.
  - rewrite fmap_cons in Hnd. apply NoDup_cons in Hnd as [Hk Hnd].
    change ((k, d).1) with k in Hk.
    assert (∀ d', (k, d') ∈ items → False) as Hfresh.
    { intros d' Hd'. apply Hk. apply list_elem_of_fmap. by exists (k, d'). }
    destruct (Hin k d (list_elem_of_here _ _)) as [Hd [y Hy]].
    cbn [foldl]. rewrite (append_band_Ok bands bb k d d y Hd Hy).
    destruct (IH (<[k := deque.append d y]> bb) Hnd) as (bb' & Hf & Hitems & Hout).
    { intros k' d' Hkd'. destruct (Hin k' d' (list_elem_of_further _ _ _ Hkd')) as [? ?].
      split; [|done]. rewrite lookup_insert_ne; [done|].
      intros ->. by apply (Hfresh d'). }
    exists bb'. split; [done|]. split.
    + intros k' d' Hkd'. apply elem_of_cons in Hkd' as [[= -> ->]|Hkd'].
      * exists y. split; [done|]. by rewrite (Hout k Hk), lookup_insert_eq.
      * by apply Hitems.
    + intros k' Hk'. rewrite fmap_cons in Hk'.
      apply not_elem_of_cons in Hk' as [Hne Hk'].
      by rewrite (Hout k' Hk'), lookup_insert_ne.
Qed.

(** One [push]: the sample goes once into the raw buffer, and the
    output of each band once into the buffer of that band. *)
Lemma push_spec (self : t F) (x : F) :
  consistent self → aligned self →
  ∃ bands self',
    FourBandFilters.apply (filters self) x = Ok (bands, filters self')
    ∧ push self x = Ok self'
    ∧ raw_buffer self' = deque.append (raw_buffer self) x
    ∧ (∀ name d, band_buffers self !! name = Some d →
         ∃ y, bands !! name = Some y
              ∧ band_buffers self' !! name = Some (deque.append d y))
    ∧ consistent self' ∧ aligned self'.
Proof.
  intros (Hsh & Hdomf & Hraw & Hmax) (Hle & Hdomb & Hlen).
  destruct (apply_spec (filters self) x Hsh) as (bands & z' & Hap & Hdomo & Hbands).
  destruct (append_band_fold bands (map_to_list (band_buffers self)) (band_buffers self))
    as (bb' & Hf & Hitems & Hout).
  { apply NoDup_fst_map_to_list. }
  { intros k d Hkd. apply elem_of_map_to_list in Hkd. split; [done|].
    apply elem_of_dom. rewrite Hdomo, Hdomf, <- Hdomb. apply elem_of_dom. by eexists. }
  eexists bands, (Buffers _ _ bb'). split; [exact Hap|].
  split. { unfold push. rewrite Hap. cbn. by rewrite Hf. }
  split; [done|].
  assert (∀ name d, band_buffers self !! name = Some d →
            ∃ y, bands !! name = Some y ∧ bb' !! name = Some (deque.append d y)) as Hpush.
  { intros name d Hd. apply Hitems. by apply elem_of_map_to_list. }
  assert (∀ name d', bb' !! name = Some d' →
            ∃ d y, band_buffers self !! name = Some d ∧ d' = deque.append d y) as Hback.
  { intros name d' Hd'. destruct (band_buffers self !! name) as [d|] eqn:Hd.
    - destruct (Hpush name d Hd) as (y & _ & Hy). exists d, y. split; [done|]. congruence.
    - rewrite Hout in Hd'; [congruence|].
      intros Hel. apply list_elem_of_fmap in Hel as ([k d] & -> & Hel).
      apply elem_of_map_to_list in Hel. cbn in Hd. congruence. }
  assert (dom bb' = band_names) as Hdom'.
  { rewrite <- Hdomb. apply set_eq. intros k. rewrite !elem_of_dom. split.
    - intros [d' Hd']. destruct (Hback k d' Hd') as (d & _ & Hd & _). by eexists.
    - intros [d Hd]. destruct (Hpush k d Hd) as (y & _ & Hy). by eexists. }
  split; [exact Hpush|]. split.
  - split; [|split; [done|split]].
    + intros k f Hk. cbn in Hk |- *.
      destruct (Hbands k f Hk) as (zk & Hzk & _ & ->). cbn. f_equal.
      apply sos_sample_length.
      destruct (shaped_lookup _ k f Hsh Hk) as (zk' & ? & ?). congruence.
    + exact Hraw.
    + intros k d' Hd'. cbn in Hd'.
      destruct (Hback k d' Hd') as (d & y & Hd & ->).
      rewrite deque_append_maxlen. by apply (Hmax k d).
  - split; [|split; [done|]].
    + change (deque.len (deque.append (raw_buffer self) x) ≤ BUFFER_SIZE).
      rewrite deque_append_len by lia. lia.
    + intros k d' Hd'. cbn in Hd'.
      change (deque.len d' = deque.len (deque.append (raw_buffer self) x)).
      destruct (Hback k d' Hd') as (d & y & Hd & ->).
      pose proof (Hlen k d Hd) as Hl. pose proof (Hmax k d Hd) as Hm. cbn beta in Hl, Hm.
      rewrite !deque_append_len by lia. lia.
Qed.

Lemma new_consistent (filters : FourBandFilters.t F) :
  FourBandFilters.shaped filters →
  dom (FourBandFilters.filters filters) = band_names →
  consistent (new filters) ∧ aligned (new filters).
Proof.
  intros Hsh Hdom.
  assert (∀ k (d : deque.t F), band_buffers (new filters) !! k = Some d →
            d = deque.new BUFFER_SIZE) as Hnew.
  { intros k d. unfold new. cbn.
    rewrite !lookup_insert. repeat case_decide; try congruence.
    by rewrite lookup_empty. }
  split.
  - split; [done|]. split; [done|]. split; [done|].
    intros k d Hd. by rewrite (Hnew k d Hd).
  - split; [cbn; lia|]. split.
    + unfold new. cbn. rewrite !dom_insert_L, dom_empty_L. unfold band_names. set_solver.
    + intros k d Hd. by rewrite (Hnew k d Hd).
Qed.
End PushFacts.

Section Pipeline.
Context `{Arith F}.
Import Buffers.

Lemma sos_run_cons (f : sos F) z x xs :
  sos_run f z (x :: xs)
  = ((sos_sample f z x).1 :: (sos_run f (sos_sample f z x).2 xs).1,
     (sos_run f (sos_sample f z x).2 xs).2).
Proof.
  cbn [sos_run]. destruct (sos_sample f z x) as [y z']. cbn [fst snd].
  by destruct (sos_run f z' xs).
Qed.

(** After any number of samples, the raw buffer holds what a deque of
    capacity [BUFFER_SIZE] keeps of the samples, and the buffer of each
    band what it keeps of the outputs of that band's filter on the whole
    sequence. *)
Lemma pushes_spec (self : Buffers.t F) (samples : list F) :
  consistent self → aligned self →
  ∃ self',
    pushes self samples = Ok self'
    ∧ consistent self' ∧ aligned self'
    ∧ raw_buffer self' = deque.extend (raw_buffer self) samples
    ∧ ∀ name f z d,
        FourBandFilters.filters (filters self) !! name = Some f →
        FourBandFilters.zi (filters self) !! name = Some z →
        band_buffers self !! name = Some d →
        band_buffers self' !! name = Some (deque.extend d (sos_run f z samples).1)
        ∧ FourBandFilters.filters (filters self') !! name = Some f
        ∧ FourBandFilters.zi (filters self') !! name = Some (sos_run f z samples).2.
Proof.
  revert self. induction samples as [|x xs IH]; intros self Hc Ha.
  - exists self. split; [done|]. split; [done|]. split; [done|]. split; [done|].
    intros name f z d Hf Hz Hd. done.
  - destruct (push_spec self x Hc Ha) as (bands & self1 & Hap & Hp & Hraw & Hb & Hc1 & Ha1).
    destruct (IH self1 Hc1 Ha1) as (self' & Hps & Hc' & Ha' & Hraw' & Hb').
    exists self'. split; [cbn [pushes]; by rewrite Hp|].
    split; [done|]. split; [done|]. split; [by rewrite Hraw', Hraw|].
    intros name f z d Hf Hz Hd.
    destruct Hc as (Hsh & _).
    destruct (apply_spec (filters self) x Hsh) as (out & z' & Hap' & _ & Hbands).
    rewrite Hap in Hap'. injection Hap' as -> Hself1.
    destruct (Hbands name f Hf) as (zk & Hzk & Hout & Hz').
    assert (zk = z) as -> by congruence.
    destruct (Hb name d Hd) as (y & Hy & Hd1).
    assert (y = (sos_sample f z x).1) as -> by congruence.
    rewrite sos_run_cons. cbn [fst snd deque.extend].
    apply Hb'; [by rewrite Hself1|by rewrite Hself1|done].
Qed.
End Pipeline.

(** ** The loops of [main] and [main_fall] *)

Section LoopFacts.
Context `{Arith F}.
Context (butter_design : Z → F → F → sos F).
Context (float_of_str : string → option F).
Context (sin : F → F) (pi : F).
Context {G : Type} (normal : G → F → F → F * G).
Import Buffers.

Lemma settled_new (filters : FourBandFilters.t F) :
  FourBandFilters.__init__ butter_design SAMPLE_RATE = Ok filters →
  settled 0 (new filters).
Proof.
  intros Hi. apply init_shaped in Hi as [Hsh Hdom].
  destruct (new_consistent filters Hsh Hdom) as [Hc Ha]. by split.
Qed.

Lemma settled_push n (b b' : Buffers.t F) x :
  settled n b → push b x = Ok b' → settled (S n) b'.
Proof.
  intros (Hc & Ha & Hn) Hp.
  destruct (push_spec b x Hc Ha) as (bands & b1 & _ & Hp1 & Hraw & _ & Hc1 & Ha1).
  assert (b1 = b') as -> by congruence.
  split; [done|]. split; [done|].
  destruct Hc as (_ & _ & Hmax & _). destruct Ha as (Hle & _).
  rewrite Hraw, deque_append_len by lia. lia.
Qed.

Lemma main_reachable_settled (st : Main.t F) :
  Main.reachable butter_design float_of_str st →
  (0 ≤ Main.sample_count st)%Z
  ∧ settled (Z.to_nat (Main.sample_count st)) (Main.bufs st).
Proof.
  induction 1 as [st Hst|st st' _ [Hz IH] Hstep].
  - unfold Main.start in Hst. apply bind_Ok in Hst as (filters & Hi & [= <-]).
    split; [done|]. by apply settled_new.
  - destruct Hstep as [st readline r _|st st' Hloop]; [done|].
    unfold Main.loop in Hloop.
    destruct (SerialEEGReader.read_latest (Main.reader st)) as [[sample|] reader].
    + apply bind_Ok in Hloop as (b' & Hp & [= <-]). cbn.
      split; [lia|]. replace (Z.to_nat (Main.sample_count st + 1))
        with (S (Z.to_nat (Main.sample_count st))) by lia.
      by eapply settled_push.
    + by injection Hloop as <-.
Qed.

Lemma main_fall_loop_push (st st' : MainFall.t F G) raw :
  MainFall.loop sin pi normal st = Ok (raw, st') →
  push (MainFall.bufs st) raw = Ok (MainFall.bufs st').
Proof.
  unfold MainFall.loop. intros Hl.
  apply bind_Ok in Hl as (seg & _ & Hl).
  destruct (normal _ _ _) as [noise rng].
  apply bind_Ok in Hl as (b' & Hp & Hl).
  case_bool_decide; by injection Hl as <- <-.
Qed.

Lemma main_fall_run_settled m n (st st' : MainFall.t F G) raws :
  MainFall.run sin pi normal n st = Ok (raws, st') →
  settled m (MainFall.bufs st) →
  settled (m + n) (MainFall.bufs st').
Proof.
  revert m st raws. induction n as [|n IH]; intros m st raws.
  - intros [= _ <-]. by rewrite Nat.add_0_r.
  - cbn [MainFall.run]. intros Hr Hs.
    apply bind_Ok in Hr as ([raw st1] & Hl & Hr).
    apply bind_Ok in Hr as ([raws' st2] & Hr & [= _ <-]).
    apply main_fall_loop_push in Hl.
    replace (m + S n) with (S m + n) by lia.
    eapply IH; [exact Hr|]. by eapply settled_push.
Qed.

(** C9. When a pass through the loop of [main] or of [main_fall] has
    ended, every sample retained so far has been appended once to the raw
    buffer and once to each of the four band buffers: the five buffers
    hold the same number of values, the number of samples retained, capped
    at [BUFFER_SIZE]. *)
Theorem buffers_aligned_at_boundary (n : nat) (b : Buffers.t F) :
  at_boundary butter_design float_of_str sin pi normal n b →
  aligned b ∧ deque.len (raw_buffer b) = n `min` BUFFER_SIZE.
Proof.
  intros [st Hst|g st0 k raws st Hst Hrun].
  - by destruct (main_reachable_settled st Hst) as (_ & _ & Ha & Hn).
  - unfold MainFall.start in Hst. apply bind_Ok in Hst as (filters & Hi & [= <-]).
    apply settled_new in Hi.
    by destruct (main_fall_run_settled 0 k _ _ _ Hrun Hi) as (_ & Ha & Hn).
Qed.
End LoopFacts.

(** ** The queue and the readers *)

Section QueueFacts.
Context {F : Type}.
Implicit Types (q : Queue.t F) (l : list F).

Lemma put_unbounded m l (v : F) :
  (m ≤ 0)%Z → Queue.put (Queue.Queue m l) v = Some (Queue.Queue m (l ++ [v])).
Proof.
  intros Hm. unfold Queue.put, Queue.full. cbn.
  by rewrite bool_decide_eq_false_2 by lia.
Qed.

Lemma read_latest_loop_drains m l (latest : option F) :
  SerialEEGReader.read_latest_loop (length l) (Queue.Queue m l) latest
  = (from_option Some latest (last l), Queue.Queue m []).
Proof.
  revert latest. induction l as [|v l IH]; intros latest; [done|].
  cbn [length SerialEEGReader.read_latest_loop].
  unfold Queue.empty, Queue.get_nowait. cbn [Queue.qsize Queue.items Queue.maxsize length].
  rewrite bool_decide_eq_false_2 by done. rewrite IH.
  f_equal. rewrite last_cons. by destruct (last l).
Qed.

Lemma read_latest_drains m l (n : Z) :
  SerialEEGReader.read_latest (SerialEEGReader.SerialEEGReader (Queue.Queue m l) n)
  = (last l, SerialEEGReader.SerialEEGReader (Queue.Queue m []) n).
Proof.
  unfold SerialEEGReader.read_latest, Queue.qsize.
  cbn [SerialEEGReader.val_queue SerialEEGReader.last_print Queue.items].
  rewrite read_latest_loop_drains. by destruct (last l).
Qed.
End QueueFacts.

Section TextFacts.
Lemma app_String c s t : String c s +:+ t = String c (s +:+ t).
Proof. done. Qed.
Lemma app_empty t : "" +:+ t = t.
Proof. done. Qed.
Lemma has_comma_app_comma field rest :
  has_comma (field +:+ String ","%char rest) = true.
Proof.
  induction field as [|c field IH].
  - rewrite app_empty. cbn [has_comma]. by rewrite bool_decide_eq_true_2.
  - rewrite app_String. cbn [has_comma]. rewrite IH. by destruct (bool_decide _).
Qed.

Lemma first_field_app_comma field rest :
  has_comma field = false →
  first_field (field +:+ String ","%char rest) = field.
Proof.
  induction field as [|c field IH].
  - intros _. rewrite app_empty. cbn [first_field]. by rewrite bool_decide_eq_true_2.
  - rewrite app_String. cbn [has_comma first_field].
    intros Hc. apply orb_false_iff in Hc as [Hc Hf].
    rewrite Hc. f_equal. by apply IH.
Qed.

Lemma first_field_no_comma s : has_comma (first_field s) = false.
Proof.
  induction s as [|c s IH]; cbn [has_comma first_field]; [done|].
  case_bool_decide as Hc; cbn [has_comma]; [done|].
  by rewrite bool_decide_eq_false_2, IH.
Qed.

(** A line with a comma is its first field, the comma, and the rest. *)
Lemma first_field_split s :
  has_comma s = true → ∃ rest, s = first_field s +:+ String ","%char rest.
Proof.
  induction s as [|c s IH]; cbn [has_comma first_field]; [done|].
  case_bool_decide as Hc; cbn [orb].
  - intros _. exists s. by rewrite Hc, app_empty.
  - intros Hs. destruct (IH Hs) as [rest Hrest]. exists rest.
    by rewrite app_String, <- Hrest.
Qed.
End TextFacts.

Section ReaderFacts.
Context {F : Type}.
Context (float_of_str : string → option F).

(** The number a stripped line stands for, if any. *)
Lemma parse_float line :
  parse float_of_str line =
    match float_of_str (if has_comma line then first_field line else line) with
    | Some v => Ok v
    | None => Raise ValueError
    end.
Proof. done. Qed.

Lemma readers_leave_text items n text :
  readers_leave float_of_str items n (Ok text)
    (if bool_decide (strip text = EmptyString) then items
     else match parse float_of_str (strip text) with
          | Ok v => items ++ [v]
          | Raise _ => items
          end)
    (if bool_decide (strip text = EmptyString) then n
     else match parse float_of_str (strip text) with
          | Ok v => n + 1
          | Raise _ => n
          end).
Proof.
  unfold readers_leave, SerialEEGReader._read_loop, serial_reader. cbn.
  case_bool_decide as Hl; [done|].
  rewrite parse_float. destruct (float_of_str _) as [v|]; cbn; [|done].
  unfold put_. by rewrite put_unbounded by done.
Qed.

Lemma readers_leave_error items n e :
  readers_leave float_of_str items n (Raise e) items n.
Proof. split; by destruct e. Qed.

Lemma readers_leave_total items n readline :
  ∃ items' n', readers_leave float_of_str items n readline items' n'.
Proof.
  destruct readline as [text|e].
  - eexists _, _. apply readers_leave_text.
  - exists items, n. apply readers_leave_error.
Qed.

Lemma readers_leave_number items n text v :
  strip text ≠ EmptyString →
  has_comma (strip text) = false →
  float_of_str (strip text) = Some v →
  readers_leave float_of_str items n (Ok text) (items ++ [v]) (n + 1).
Proof.
  intros Hne Hc Hf. pose proof (readers_leave_text items n text) as Hl.
  rewrite parse_float in Hl. by rewrite Hc, Hf, bool_decide_eq_false_2 in Hl.
Qed.

(** C6. A pass of the reader never raises.  A read error, an empty
    line and a line that does not parse as a number leave the queue as it
    was; a line that is a number enqueues it; a comma-separated line
    whose first field is a number enqueues that field's value. *)
Theorem readers_skip_or_enqueue (items : list F) (n : Z) :
  (∀ readline, ∃ items' n', readers_leave float_of_str items n readline items' n')
  ∧ (∀ e, readers_leave float_of_str items n (Raise e) items n)
  ∧ ∀ text,
      (strip text = EmptyString →
         readers_leave float_of_str items n (Ok text) items n)
      ∧ (has_comma (strip text) = false →
         float_of_str (strip text) = None →
         readers_leave float_of_str items n (Ok text) items n)
      ∧ (∀ v, strip text ≠ EmptyString →
         has_comma (strip text) = false →
         float_of_str (strip text) = Some v →
         readers_leave float_of_str items n (Ok text) (items ++ [v]) (n + 1))
      ∧ (∀ field rest,
         strip text = field +:+ String ","%char rest →
         has_comma field = false →
         (float_of_str field = None →
            readers_leave float_of_str items n (Ok text) items n)
         ∧ (∀ v, float_of_str field = Some v →
            readers_leave float_of_str items n (Ok text) (items ++ [v]) (n + 1))).
Proof.
  split; [|split].
  - apply readers_leave_total.
  - apply readers_leave_error.
  - intros text. pose proof (readers_leave_text items n text) as Hl.
    rewrite parse_float in Hl. split; [|split; [|split]].
    + intros He. by rewrite bool_decide_eq_true_2 in Hl.
    + intros Hc Hf. rewrite Hc, Hf in Hl. by case_bool_decide.
    + intros v. apply readers_leave_number.
    + intros field rest Hline Hc. rewrite Hline in Hl.
      rewrite has_comma_app_comma, first_field_app_comma in Hl by done.
      split.
      * intros Hf. rewrite Hf in Hl. by case_bool_decide.
      * intros v Hf. rewrite Hf in Hl.
        rewrite bool_decide_eq_false_2 in Hl; [done|]. by destruct field.
Qed.
End ReaderFacts.

(** ** The consumers *)

Section MainLoopFacts.
Context `{Arith F}.
Context (butter_design : Z → F → F → sos F).
Context (float_of_str : string → option F).

(** A pass of [main]'s loop over a queue of several samples retains the
    last one only. *)
Lemma main_loop_keeps_latest (st : Main.t F) n m l x :
  Buffers.settled n (Main.bufs st) →
  SerialEEGReader.val_queue (Main.reader st) = Queue.Queue m (l ++ [x]) →
  ∃ st',
    Main.loop st = Ok st'
    ∧ SerialEEGReader.val_queue (Main.reader st') = Queue.Queue m []
    ∧ Buffers.raw_buffer (Main.bufs st')
      = deque.append (Buffers.raw_buffer (Main.bufs st)) x
    ∧ Main.sample_count st' = (Main.sample_count st + 1)%Z.
Proof.
  intros (Hc & Ha & _) Hq. unfold Main.loop.
  destruct st as [[q lp] b c]. cbn in Hq, Hc, Ha |- *. subst q.
  rewrite read_latest_drains, last_snoc.
  destruct (push_spec b x Hc Ha) as (bands & b' & _ & Hp & Hraw & _).
  rewrite Hp. cbn. by eexists.
Qed.

(** When the bank cannot be constructed, [main] ends before its loop. *)
Lemma main_start_raises :
  raises (FourBandFilters.__init__ butter_design SAMPLE_RATE) = true →
  raises (Main.start butter_design) = true.
Proof.
  unfold Main.start. by destruct (FourBandFilters.__init__ butter_design SAMPLE_RATE).
Qed.

Lemma main_loop_empty (st : Main.t F) m :
  SerialEEGReader.val_queue (Main.reader st) = Queue.Queue m [] →
  Main.loop st = Ok st.
Proof.
  intros Hq. unfold Main.loop. destruct st as [[q lp] b c]. cbn in Hq |- *. subst q.
  by rewrite read_latest_drains.
Qed.

Lemma read_loop_queue (r r' : SerialEEGReader.t F) readline :
  Queue.maxsize (SerialEEGReader.val_queue r) = 0%Z →
  SerialEEGReader._read_loop float_of_str r readline = Ok (Next r') →
  Queue.maxsize (SerialEEGReader.val_queue r') = 0%Z.
Proof.
  destruct r as [[m items] n]. cbn. intros -> Hr.
  destruct (readers_leave_total float_of_str items n readline)
    as (items' & n' & Hl & _).
  rewrite Hl in Hr. by injection Hr as <-.
Qed.

Lemma main_reachable_queue (st : Main.t F) :
  Main.reachable butter_design float_of_str st →
  Queue.maxsize (SerialEEGReader.val_queue (Main.reader st)) = 0%Z.
Proof.
  induction 1 as [st Hst|st st' _ IH Hstep].
  - unfold Main.start in Hst. by apply bind_Ok in Hst as (filters & _ & [= <-]).
  - destruct Hstep as [st readline r Hr|st st' Hloop].
    + cbn. by eapply read_loop_queue.
    + unfold Main.loop in Hloop. destruct st as [[[m items] lp] b c].
      cbn in IH. subst m.
      cbn [Main.reader Main.bufs Main.sample_count] in Hloop.
      rewrite read_latest_drains in Hloop.
      destruct (last items).
      * by apply bind_Ok in Hloop as (b' & _ & [= <-]).
      * by injection Hloop as <-.
Qed.
End MainLoopFacts.

Section BulbFacts.
Import Bulb.

Lemma window_len_nonzero (k : nat) :
  1 ≤ k ≤ SMOOTH_WINDOW →
  PrimFloat.eqb (float_of_int (Z.of_nat k)) (float_of_int 0) = false.
Proof.
  unfold SMOOTH_WINDOW. intros Hk.
  do 9 (destruct k as [|k]; [try lia; by vm_compute|]). lia.
Qed.

Lemma compute_moving_average_Ok (w : deque.t float) (v : float) :
  deque.maxlen w = SMOOTH_WINDOW → deque.len w ≤ SMOOTH_WINDOW →
  ∃ avg, compute_moving_average w v = Ok (avg, deque.append w v).
Proof.
  intros Hmax Hlen. unfold compute_moving_average, truediv.
  change (@feqb float float64) with PrimFloat.eqb.
  change (@of_int float float64) with float_of_int.
  rewrite window_len_nonzero; [by eexists|].
  rewrite deque_append_len by lia. unfold SMOOTH_WINDOW in *. lia.
Qed.

(** The polling loop feeds every queued sample, in the order of arrival,
    to the moving average, and keeps the last as [raw_val]. *)
Lemma poll_loop_drains m (l : list float) (w : deque.t float) raw smooth updated :
  deque.maxlen w = SMOOTH_WINDOW → deque.len w ≤ SMOOTH_WINDOW →
  ∃ smooth',
    poll_loop (length l) (Queue.Queue m l) w raw smooth updated
    = Ok (Queue.Queue m [], deque.extend w l, from_option Some raw (last l),
          smooth', updated || bool_decide (l ≠ []))
    ∧ (l = [] → smooth' = smooth) ∧ (l ≠ [] → is_Some smooth').
Proof.
  revert w raw smooth updated.
  induction l as [|v l IH]; intros w raw smooth updated Hmax Hlen.
  - exists smooth. cbn. rewrite orb_false_r. done.
  - cbn [length poll_loop]. unfold Queue.empty, Queue.get_nowait.
    cbn [Queue.qsize Queue.items Queue.maxsize length].
    rewrite bool_decide_eq_false_2 by done.
    destruct (compute_moving_average_Ok w v Hmax Hlen) as [avg ->]. cbn.
    destruct (IH (deque.append w v) (Some v) (Some avg) true) as (smooth' & -> & He & Hne).
    { by rewrite deque_append_maxlen. }
    { rewrite deque_append_len by lia. unfold SMOOTH_WINDOW in *. lia. }
    exists smooth'. split; [|split; [done|]].
    + rewrite last_cons, orb_true_r. by destruct (last l).
    + intros _. destruct l; [rewrite He; done|by apply Hne].
Qed.
End BulbFacts.

Section BulbReachable.
Import Bulb.
Context (float_of_str : string → option float).

Lemma poll_queue_and_update_drains (app : t) m l x :
  deque.maxlen (window app) = SMOOTH_WINDOW →
  deque.len (window app) ≤ SMOOTH_WINDOW →
  val_queue app = Queue.Queue m (l ++ [x]) →
  ∃ smooth,
    poll_queue_and_update app =
      (level ← map_to_brightness (abs x) THRESHOLD MAX_SIGNAL;
       Ok (Bulb (Queue.Queue m []) (deque.extend (window app) (l ++ [x]))
                (set_brightness level) (Some (x, smooth)))).
Proof.
  intros Hmax Hlen Hq. unfold poll_queue_and_update. rewrite Hq.
  unfold Queue.qsize. cbn [Queue.items].
  destruct (poll_loop_drains m (l ++ [x]) (window app) None None false Hmax Hlen)
    as (smooth' & -> & _ & Hs).
  destruct Hs as [smooth ->]; [by destruct l|].
  exists smooth. rewrite last_snoc. cbn.
  rewrite bool_decide_eq_true_2 by (by destruct l). done.
Qed.

Lemma bulb_reachable_inv (app : t) :
  reachable float_of_str app →
  Queue.maxsize (val_queue app) = 0%Z
  ∧ deque.maxlen (window app) = SMOOTH_WINDOW
  ∧ deque.len (window app) ≤ SMOOTH_WINDOW.
Proof.
  induction 1 as [|app app' _ (Hq & Hmax & Hlen) Hstep].
  - cbn. unfold SMOOTH_WINDOW. split; [done|]. split; [done|lia].
  - destruct Hstep as [app readline q Hr|app app' Hp].
    + split; [|done]. cbn. destruct (val_queue app) as [m items]. cbn in Hq. subst m.
      destruct (readers_leave_total float_of_str items 0 readline)
        as (items' & n' & _ & Hl).
      rewrite Hl in Hr. by injection Hr as <-.
    + destruct app as [[m items] w lvl txt]. cbn in Hq, Hmax, Hlen. subst m.
      destruct (decide (items = [])) as [->|Hne].
      * cbn in Hp. by injection Hp as <-.
      * destruct (exists_last Hne) as (l & x & ->).
        destruct (poll_queue_and_update_drains (Bulb (Queue.Queue 0 (l ++ [x])) w lvl txt)
                    0 l x Hmax Hlen eq_refl) as [smooth Hpoll].
        rewrite Hpoll in Hp. apply bind_Ok in Hp as (level & _ & [= <-]).
        cbn [val_queue window Queue.maxsize]. split; [done|].
        rewrite deque_extend_maxlen. split; [done|].
        unfold deque.len. rewrite deque_extend_items by lia.
        rewrite length_drop, !length_app. unfold deque.len in *. lia.
Qed.
End BulbReachable.

Section Policies.

(** C3, as the scripts have it.  A pass of the four-band consumer over
    a queue of several samples retains the last one only ([read_latest]
    empties the queue and returns the latest value): that sample alone is
    filtered and buffered.  A pass of the bulb's polling callback feeds
    every queued sample, in the order of arrival, to the moving-average
    window, and lights the bulb by the last one. *)
Theorem consumers_latest_and_all :
  (∀ `(Arith F) (st : Main.t F) n m l x,
     Buffers.settled n (Main.bufs st) →
     SerialEEGReader.val_queue (Main.reader st) = Queue.Queue m (l ++ [x]) →
     ∃ st',
       Main.loop st = Ok st'
       ∧ SerialEEGReader.val_queue (Main.reader st') = Queue.Queue m []
       ∧ Buffers.raw_buffer (Main.bufs st')
         = deque.append (Buffers.raw_buffer (Main.bufs st)) x
       ∧ Main.sample_count st' = (Main.sample_count st + 1)%Z)
  ∧ (∀ (app : Bulb.t) m l x,
     deque.maxlen (Bulb.window app) = Bulb.SMOOTH_WINDOW →
     deque.len (Bulb.window app) ≤ Bulb.SMOOTH_WINDOW →
     Bulb.val_queue app = Queue.Queue m (l ++ [x]) →
     ∃ smooth,
       Bulb.poll_queue_and_update app =
         (level ← Bulb.map_to_brightness (abs x) Bulb.THRESHOLD Bulb.MAX_SIGNAL;
          Ok (Bulb.Bulb (Queue.Queue m [])
                (deque.extend (Bulb.window app) (l ++ [x]))
                (Bulb.set_brightness level) (Some (x, smooth))))).
Proof.
  split.
  - intros F HF st n m l x. apply main_loop_keeps_latest.
  - intros app m l x. apply poll_queue_and_update_drains.
Qed.

End Policies.

(** ** The hand-off queue *)

Section HandOff.

Lemma unbounded_intro {A} (items : list A) : Queue.unbounded (Queue.Queue 0 items).
Proof. split; [done|]. intros item. by apply put_unbounded. Qed.

(** C5, as the scripts have it.  Both scripts make the hand-off queue
    with [queue.Queue()], which configures no bound: in every state the
    reader and the consumer can reach, [put] appends the sample without
    waiting, whatever the queue already holds. *)
Theorem hand_off_queue_unbounded :
  (∀ `(Arith F) butter_design float_of_str (st : Main.t F),
     Main.reachable butter_design float_of_str st →
     Queue.unbounded (SerialEEGReader.val_queue (Main.reader st)))
  ∧ (∀ float_of_str (app : Bulb.t),
     Bulb.reachable float_of_str app →
     Queue.unbounded (Bulb.val_queue app)).
Proof.
  split.
  - intros F HF butter_design float_of_str st Hst.
    apply main_reachable_queue in Hst.
    destruct (SerialEEGReader.val_queue (Main.reader st)) as [m items].
    cbn in Hst. subst m. apply unbounded_intro.
  - intros float_of_str app Happ.
    apply bulb_reachable_inv in Happ as (Hq & _).
    destruct (Bulb.val_queue app) as [m items].
    cbn in Hq. subst m. apply unbounded_intro.
Qed.

(** The reader alone fills the queue with whatever lines it is sent. *)
Lemma main_reachable_reads `{Arith F} butter_design (float_of_str : string → option F)
    (st0 : Main.t F) (lines : list (string * F)) :
  Main.start butter_design = Ok st0 →
  Forall (λ line, strip line.1 ≠ EmptyString
                  ∧ has_comma (strip line.1) = false
                  ∧ float_of_str (strip line.1) = Some line.2) lines →
  Main.reachable butter_design float_of_str
    (Main.Main (SerialEEGReader.SerialEEGReader (Queue.Queue 0 lines.*2)
                  (Z.of_nat (length lines)))
               (Main.bufs st0) 0).
Proof.
  intros Hst. induction lines as [|[text v] lines IH] using rev_ind; intros Hl.
  - apply Main.reachable_start. rewrite Hst. f_equal.
    unfold Main.start in Hst. by apply bind_Ok in Hst as (filters & _ & [= <-]).
  - apply Forall_app in Hl as [Hl Hv]. apply Forall_singleton in Hv as (Hne & Hc & Hv).
    cbn [fst snd] in Hne, Hc, Hv.
    eapply Main.reachable_step; [exact (IH Hl)|].
    rewrite fmap_app, length_app. cbn [fmap list_fmap snd length].
    replace (Z.of_nat (length lines + 1)) with (Z.of_nat (length lines) + 1)%Z by lia.
    eapply (Main.step_read float_of_str (Main.Main _ _ _) (Ok text)).
    cbn [Main.reader].
    exact (proj1 (readers_leave_number float_of_str lines.*2 (Z.of_nat (length lines))
                    text v Hne Hc Hv)).
Qed.

End HandOff.

(** ** The synthetic generator *)

Section Synthetic.
Context `{Arith F}.
Context (butter_design : Z → F → F → sos F).
Context (sin : F → F) (pi : F).
Context {G : Type} (normal : G → F → F → F * G).
Import MainFall.

Lemma seg_names_lookup (k : nat) :
  seg_names !! ((k / Z.to_nat segment_samples) `mod` 3) = Some (seg_of_tick k).
Proof.
  unfold seg_of_tick.
  pose proof (Nat.mod_upper_bound (k / Z.to_nat segment_samples) 3 ltac:(done)) as Hlt.
  destruct ((k / Z.to_nat segment_samples) `mod` 3) as [|[|[|i]]]; try done. lia.
Qed.

Lemma tick_counters (k : nat) :
  let n := Z.to_nat segment_samples in
  (S k `mod` n = 0 ∧ S k / n = S (k / n) ∧ k `mod` n = n - 1)
  ∨ (S k `mod` n = S (k `mod` n) ∧ S k / n = k / n ∧ k `mod` n < n - 1).
Proof.
  cbn zeta. change (Z.to_nat segment_samples) with 2000.
  pose proof (Nat.div_mod_eq k 2000) as Hk.
  pose proof (Nat.mod_upper_bound k 2000 ltac:(done)) as Hlt.
  destruct (decide (k `mod` 2000 = 1999)) as [Heq|Hne].
  - left. assert (S k = 2000 * S (k / 2000) + 0) as Hs by lia.
    split; [|split; [|lia]].
    + rewrite Hs. rewrite Nat.add_0_r, Nat.mul_comm. apply Nat.Div0.mod_mul.
    + rewrite Hs at 1. rewrite Nat.add_0_r, Nat.mul_comm. by apply Nat.div_mul.
  - right. assert (S k = 2000 * (k / 2000) + S (k `mod` 2000)) as Hs by lia.
    split; [|split; [|lia]].
    + symmetry. apply (Nat.mod_unique _ _ (k / 2000)); lia.
    + symmetry. apply (Nat.div_unique _ _ _ (S (k `mod` 2000))); lia.
Qed.

(** One pass at tick [k]: the raw sample is the signal of the tick plus
    the noise drawn, and the counters move to tick [k + 1]. *)
Lemma main_fall_loop_tick k (st : t F G) :
  at_tick k st →
  ∃ st',
    loop sin pi normal st
    = Ok (fadd (signal sin pi k)
               (normal (rng st) (of_int 0) (noise_scale (seg_of_tick k))).1, st')
    ∧ rng st' = (normal (rng st) (of_int 0) (noise_scale (seg_of_tick k))).2
    ∧ at_tick (S k) st'.
Proof.
  intros (Hidx & Hcnt & Htime & m & Hs). unfold loop.
  rewrite Hidx, seg_names_lookup. cbn [mbind result_bind].
  destruct (normal (rng st) (of_int 0) (noise_scale (seg_of_tick k))) as [noise g'].
  cbn [fst snd]. destruct Hs as (Hc & Ha & Hn).
  destruct (push_spec (bufs st) (fadd (tones sin pi (seg_of_tick k) (time st)) noise) Hc Ha)
    as (bands & b' & _ & Hp & Hraw & _ & Hc' & Ha').
  rewrite Hp. cbn [mbind result_bind].
  assert (Buffers.settled (S m) b') as Hs'.
  { eapply settled_push; [|exact Hp]. by split. }
  rewrite Htime. unfold signal.
  destruct (tick_counters k) as [(Hm & Hd & Hk)|(Hm & Hd & Hk)]; cbn zeta in Hm, Hd, Hk.
  - rewrite bool_decide_eq_true_2.
    2:{ rewrite Hcnt. unfold segment_samples in *. lia. }
    eexists. split; [done|]. split; [done|]. cbn [seg_idx seg_count time bufs].
    split; [|split; [|split; [done|by exists (S m)]]].
    + rewrite Hd. change (length seg_names) with 3.
      replace (S (k / Z.to_nat segment_samples)) with (k / Z.to_nat segment_samples + 1) by lia.
      by rewrite Nat.Div0.add_mod_idemp_l.
    + by rewrite Hm.
  - rewrite bool_decide_eq_false_2.
    2:{ rewrite Hcnt. unfold segment_samples in *. lia. }
    eexists. split; [done|]. split; [done|]. cbn [seg_idx seg_count time bufs].
    split; [|split; [|split; [done|by exists (S m)]]].
    + by rewrite Hd.
    + rewrite Hm, Hcnt. cbn [seg_count]. lia.
Qed.

Lemma main_fall_run_ticks n k (st : t F G) :
  at_tick k st →
  ∃ st',
    run sin pi normal n st
    = Ok (zip_with fadd (signal sin pi <$> seq k n) (noises normal k (rng st) n), st')
    ∧ at_tick (k + n) st'.
Proof.
  revert k st. induction n as [|n IH]; intros k st Hat.
  - exists st. rewrite Nat.add_0_r. done.
  - destruct (main_fall_loop_tick k st Hat) as (st1 & Hl & Hrng & Hat1).
    destruct (IH (S k) st1 Hat1) as (st' & Hr & Hat').
    exists st'. split; [|by replace (k + S n) with (S k + n) by lia].
    cbn [run]. rewrite Hl. cbn [mbind result_bind]. rewrite Hr. cbn [mbind result_bind].
    cbn [seq fmap list_fmap noises]. rewrite Hrng.
    by destruct (normal (rng st) (of_int 0) (noise_scale (seg_of_tick k))).
Qed.


Lemma main_fall_start_tick g (st0 : t F G) :
  start butter_design g = Ok st0 → at_tick 0 st0 ∧ rng st0 = g.
Proof.
  unfold start. intros Hst. apply bind_Ok in Hst as (filters & Hi & [= <-]).
  split; [|done]. split; [done|]. split; [done|]. split; [done|].
  exists 0. by eapply settled_new.
Qed.

End Synthetic.

(** ** [map_to_brightness] *)

Section Brightness.
Import Bulb.
Local Open Scope float_scope.

Lemma float_of_int_0 : float_of_int 0 = 0.
Proof. by vm_compute. Qed.

(** The divisor is never zero: a zero difference is replaced by 1. *)
Lemma map_to_brightness_divisor (max_signal threshold : float) :
  ((if negb (max_signal - threshold =? 0) then max_signal - threshold else 1)
   =? float_of_int 0) = false.
Proof.
  rewrite float_of_int_0.
  destruct (max_signal - threshold =? 0) eqn:Hd; cbn [negb]; [by vm_compute|done].
Qed.

Lemma map_to_brightness_unfold (value_abs threshold max_signal : float) :
  map_to_brightness value_abs threshold max_signal =
    if value_abs <=? threshold then Ok 0%Z
    else
      level ← int_ ((value_abs - threshold)
                    / (if negb (max_signal - threshold =? 0)
                       then max_signal - threshold else 1) * 10);
      Ok (Z.min 10 (Z.max 0 level)).
Proof.
  unfold map_to_brightness, truediv.
  change (@feqb float float64) with PrimFloat.eqb.
  change (@of_int float float64) with float_of_int.
  rewrite map_to_brightness_divisor.
  destruct (value_abs <=? threshold); [done|]. cbn [mbind result_bind].
  change (@fdiv float float64) with PrimFloat.div.
  destruct (int_ _) as [level|e]; [|done]. cbn [mbind result_bind].
  f_equal. repeat case_bool_decide; lia.
Qed.

(** Whenever [map_to_brightness] returns, it returns a level from 0 to
    10, and 0 for a value at or below the threshold; it never divides by
    zero. *)
Lemma map_to_brightness_returns (value_abs threshold max_signal : float) :
  (∀ level, map_to_brightness value_abs threshold max_signal = Ok level →
     (0 ≤ level ≤ 10)%Z)
  ∧ ((value_abs <=? threshold) = true →
     map_to_brightness value_abs threshold max_signal = Ok 0%Z)
  ∧ map_to_brightness value_abs threshold max_signal ≠ Raise ZeroDivisionError.
Proof.
  rewrite map_to_brightness_unfold. split; [|split].
  - intros level. destruct (value_abs <=? threshold); [intros [= <-]; lia|].
    intros Hl. apply bind_Ok in Hl as (l & _ & [= <-]). lia.
  - by intros ->.
  - destruct (value_abs <=? threshold); [done|].
    unfold int_. by destruct (Prim2SF _).
Qed.

(** C10, where it fails.  [float("inf")] is a float the reader
    enqueues; on it [map_to_brightness] raises at [int(normalized * 10.0)]
    instead of returning a level, and the polling callback raises with
    it. *)
Theorem map_to_brightness_raises_on_infinity :
  map_to_brightness (abs infinity) THRESHOLD MAX_SIGNAL = Raise OverflowError
  ∧ map_to_brightness (abs nan) THRESHOLD MAX_SIGNAL = Raise ValueError
  ∧ poll_queue_and_update
      (Bulb (Queue.Queue 0 [infinity]) (deque.new SMOOTH_WINDOW) 0 None)
    = Raise OverflowError.
Proof. by vm_compute. Qed.

(** On the configured range the level is the linear map, truncated. *)
Example map_to_brightness_310 : map_to_brightness 310 THRESHOLD MAX_SIGNAL = Ok 5%Z.
Proof. by vm_compute. Qed.

Example map_to_brightness_equal_bounds : map_to_brightness 3 2 2 = Ok 10%Z.
Proof. by vm_compute. Qed.
End Brightness.

(** ** [FourBandFilters.__init__] over the reals *)

Section RealInit.
Import FourBandFilters.
Context (butter_design : Z → R → R → sos R).
Local Open Scope R_scope.

Lemma real_truediv (x y : R) :
  truediv x y = if bool_decide (y = 0) then Raise ZeroDivisionError else Ok (x / y).
Proof. done. Qed.

Lemma real_butter N lo_n hi_n :
  butter butter_design N (lo_n, hi_n) =
    if bool_decide (lo_n <= 0) || bool_decide (hi_n <= 0)
       || bool_decide (1 <= lo_n) || bool_decide (1 <= hi_n)
    then Raise ValueError
    else if negb (bool_decide (lo_n < hi_n)) then Raise ValueError
    else Ok (butter_design N lo_n hi_n).
Proof. done. Qed.

(** A band whose high cutoff is at or above Nyquist is rejected. *)
Lemma init_band_rejects (self : t R) name lo hi :
  0 < lo → lo < hi → nyquist self <= hi →
  raises (init_band butter_design self (name, (lo, hi))) = true.
Proof.
  intros Hlo Hhi Hny. unfold init_band. rewrite !real_truediv.
  case_bool_decide as Hz; [done|]. cbn [mbind result_bind].
  rewrite real_butter.
  destruct (Rlt_le_dec (nyquist self) 0) as [Hneg|Hpos].
  - rewrite (bool_decide_eq_true_2 (lo / nyquist self <= 0)); [done|].
    assert (/ nyquist self < 0) as Hi by (by apply Rinv_lt_0_compat).
    unfold Rdiv. nra.
  - assert (0 < nyquist self) as Hn by lra.
    rewrite (bool_decide_eq_true_2 (1 <= hi / nyquist self)).
    + by rewrite !orb_true_r.
    + apply (Rmult_le_reg_r (nyquist self)); [done|].
      unfold Rdiv. rewrite Rmult_assoc, Rinv_l by lra. lra.
Qed.


End RealInit.

Section RealBands.
Import FourBandFilters.
Context (butter_design : Z → R → R → sos R).
Local Open Scope R_scope.

Lemma real_bands_hz :
  Forall (λ item : string * (R * R), 0 < item.2.1 ∧ item.2.1 < item.2.2) bands_hz.
Proof.
  unfold bands_hz, lit. repeat apply Forall_cons_2; try apply Forall_nil_2;
    cbn [fst snd fdiv of_int real]; lra.
Qed.

Lemma raises_bind {A B} (m : result A) (f : A → result B) :
  raises (m ≫= f) = match m with Ok a => raises (f a) | Raise _ => true end.
Proof. by destruct m. Qed.

Lemma init_band_nyquist (self self' : t R) item :
  init_band butter_design self item = Ok self' → nyquist self' = nyquist self.
Proof.
  destruct item as [name [lo hi]]. intros Hi.
  by apply init_band_Ok in Hi as (? & ? & ? & ? & _ & _ & _ & _ & ->).
Qed.

Lemma init_bands_rejects (self : t R) (items : list (string * (R * R))) :
  Forall (λ item, 0 < item.2.1 ∧ item.2.1 < item.2.2) items →
  Exists (λ item, nyquist self <= item.2.1 ∨ nyquist self <= item.2.2) items →
  raises (init_bands butter_design self items) = true.
Proof.
  revert self. induction items as [|[name [lo hi]] items IH]; intros self Hv Hex.
  - by apply Exists_nil in Hex.
  - apply Forall_cons in Hv as [[Hlo Hhi] Hv]. cbn [fst snd] in Hlo, Hhi.
    rewrite init_bands_cons, raises_bind.
    destruct (init_band butter_design self (name, (lo, hi))) as [self1|e] eqn:Hb; [|done].
    destruct (Rle_lt_dec (nyquist self) hi) as [Hge|Hlt].
    + pose proof (init_band_rejects butter_design self name lo hi Hlo Hhi Hge) as Hr.
      by rewrite Hb in Hr.
    + apply IH; [done|]. rewrite (init_band_nyquist _ _ _ Hb).
      apply Exists_cons in Hex as [[Hex|Hex]|Hex]; cbn [fst snd] in *; [lra|lra|done].
Qed.


End RealBands.

(** ** The steady state of the step response *)

Section Steady.
Import FourBandFilters.
Local Open Scope R_scope.





End Steady.

Section SteadyOnlyForOne.
Local Open Scope R_scope.

(** A state that is steady both for the constant 1 and for the constant
    0 belongs to a first section that is a mere gain. *)
Lemma steady_for_zero_and_one (s : biquad R) (f : sos R) (z : state R) :
  steady (s :: f) z 1 → steady (s :: f) z 0 →
  b1 s = a1 s * b0 s ∧ b2 s = a2 s * b0 s.
Proof.
  unfold steady, sosfilt. intros H1 H0.
  destruct (decide (length z = length (s :: f))) as [Hlen|]; [|done].
  destruct z as [|[z0 z1] z]; [done|].
  cbn [sos_run sos_sample] in H0, H1.
  destruct (sos_sample f z _) as [y0 zs0] in H0.
  destruct (sos_sample f z _) as [y1 zs1] in H1.
  change fadd with Rplus in *. change fsub with Rminus in *.
  change fmul with Rmult in *.
  injection H0 as _ H0a H0b _. injection H1 as _ H1a H1b _.
  split; nra.
Qed.
End SteadyOnlyForOne.

(** ** The stand-in design over the reals *)

Section RealDemo.
Import FourBandFilters.
Local Open Scope R_scope.





(** At 200 Hz the high cutoff of gamma is at Nyquist. *)
Example demo_real_init_200 : raises (__init__ (F:=R) Demo.butter_design 200) = true.
Proof.
  apply init_bands_rejects; [apply real_bands_hz|].
  unfold bands_hz. do 3 apply Exists_cons_tl. apply Exists_cons_hd.
  right. cbn [fst snd nyquist fdiv of_int real]. lra.
Qed.

End RealDemo.



Section TwoRuns.
Import MainFall.
Local Open Scope R_scope.


End TwoRuns.

(** ** The scripts on binary64 *)

Section Runs.
Import FourBandFilters.

Lemma demo_bank_init : __init__ Demo.butter_design SAMPLE_RATE = Ok Demo.bank.
Proof.
  unfold Demo.bank.
  destruct (__init__ Demo.butter_design SAMPLE_RATE) as [self|e] eqn:E; [done|].
  vm_compute in E. discriminate E.
Qed.

Lemma demo_bank_shaped : shaped Demo.bank.
Proof. exact (proj1 (init_shaped _ _ _ demo_bank_init)). Qed.
End Runs.

(** The bank of [main] on binary64 has states of the shape of its
    filters; three samples through it. *)
Lemma apply_streaming_is_batch_witness :
  FourBandFilters.shaped Demo.bank
  ∧ ∃ outs self',
      FourBandFilters.feed Demo.bank [1; 0; 2]%float = Ok (outs, self')
      ∧ FourBandFilters.filters self' = FourBandFilters.filters Demo.bank
      ∧ ∀ name f z,
          FourBandFilters.filters Demo.bank !! name = Some f →
          FourBandFilters.zi Demo.bank !! name = Some z →
          ∃ y zf,
            sosfilt f [1; 0; 2]%float z = Ok (y, zf)
            ∧ (λ out : gmap string float, out !! name) <$> outs = Some <$> y
            ∧ FourBandFilters.zi self' !! name = Some zf.
Proof.
  split; [exact demo_bank_shaped|].
  exact (apply_streaming_is_batch Demo.bank [1; 0; 2]%float demo_bank_shaped).
Defined.

Section Counterexamples.

Lemma demo_start :
  Main.start Demo.butter_design
  = Ok (Main.Main SerialEEGReader.__init__ (Buffers.new Demo.bank) 0).
Proof. unfold Main.start. by rewrite demo_bank_init. Qed.

(** C5, as the claim has it, fails: no bound holds in every reachable
    state of the four-band script. *)
Lemma hand_off_queue_exceeds_every_bound :
  ¬ ∃ bound : nat, ∀ st : Main.t float,
      Main.reachable Demo.butter_design Demo.float_of_str st →
      Queue.qsize (SerialEEGReader.val_queue (Main.reader st)) ≤ bound.
Proof.
  intros [bound Hbound].
  pose proof (main_reachable_reads Demo.butter_design Demo.float_of_str _
                (replicate (S bound) ("7", float_of_int 7)) demo_start) as Hreach.
  specialize (Hbound _ (Hreach ltac:(by apply Forall_replicate))).
  unfold Queue.qsize in Hbound.
  cbn [Main.reader SerialEEGReader.val_queue Queue.items] in Hbound.
  rewrite length_fmap, length_replicate in Hbound. lia.
Qed.

(** C3, as the claim has it, fails: with the samples 1 and 2 queued, a
    pass of the four-band consumer buffers 2 and drops 1. *)
Lemma four_band_consumer_drops_queued :
  ¬ ∀ st st' : Main.t float,
      Main.reachable Demo.butter_design Demo.float_of_str st →
      Main.loop st = Ok st' →
      Buffers.raw_buffer (Main.bufs st')
      = deque.extend (Buffers.raw_buffer (Main.bufs st))
          (Queue.items (SerialEEGReader.val_queue (Main.reader st))).
Proof.
  intros Hall.
  pose proof (main_reachable_reads Demo.butter_design Demo.float_of_str _
                [("1", float_of_int 1); ("2", float_of_int 2)] demo_start) as Hreach.
  cbn [fmap list_fmap snd length] in Hreach.
  specialize (Hreach ltac:(by repeat apply Forall_cons_2; try apply Forall_nil_2)).
  destruct (main_reachable_settled _ _ _ Hreach) as [_ Hs].
  destruct (main_loop_keeps_latest _ 0 0 [float_of_int 1] (float_of_int 2) Hs eq_refl)
    as (st' & Hloop & _ & Hraw & _).
  specialize (Hall _ _ Hreach Hloop). rewrite Hraw in Hall.
  apply (f_equal deque.items) in Hall. vm_compute in Hall. discriminate Hall.
Qed.

End Counterexamples.

Lemma demo_fall_start (g : nat → float) :
  MainFall.start Demo.butter_design g
  = Ok (MainFall.MainFall (Buffers.new Demo.bank) (float_of_int 0) 0 0 g).
Proof. unfold MainFall.start. by rewrite demo_bank_init. Qed.

(** The buffers of [main_fall] on binary64 after three ticks, the
    generator returning 0. *)
Lemma buffers_aligned_at_boundary_witness :
  ∃ raws st,
    MainFall.run Demo.sin Demo.pi Demo.normal 3
      (MainFall.MainFall (Buffers.new Demo.bank) (float_of_int 0) 0 0 (λ _, 0%float))
    = Ok (raws, st)
    ∧ at_boundary Demo.butter_design Demo.float_of_str Demo.sin Demo.pi Demo.normal
        3 (MainFall.bufs st)
    ∧ Buffers.aligned (MainFall.bufs st)
    ∧ deque.len (Buffers.raw_buffer (MainFall.bufs st)) = 3 `min` BUFFER_SIZE.
Proof.
  destruct (main_fall_start_tick _ _ _ (demo_fall_start (λ _, 0%float))) as [Hat _].
  destruct (main_fall_run_ticks Demo.sin Demo.pi Demo.normal 3 0 _ Hat) as (st & Hr & _).
  assert (at_boundary Demo.butter_design Demo.float_of_str Demo.sin Demo.pi Demo.normal
            3 (MainFall.bufs st)) as Hb.
  { exact (boundary_main_fall Demo.butter_design Demo.float_of_str Demo.sin Demo.pi
             Demo.normal _ _ 3 _ st (demo_fall_start (λ _, 0%float)) Hr). }
  eexists _, st. split; [exact Hr|]. split; [exact Hb|].
  exact (buffers_aligned_at_boundary Demo.butter_design Demo.float_of_str
           Demo.sin Demo.pi Demo.normal _ _ Hb).
Defined.


Section Binary64Runs.
Import FourBandFilters.
Local Open Scope float_scope.

(** Three samples through [apply], one at a time, against one call of
    [sosfilt] on the three: the outputs of the delta band are the same
    floats. *)
Example feed_delta_run :
  match feed Demo.bank [1; 0; 2],
        (f ← getitem (filters Demo.bank) "delta";
         z ← getitem (zi Demo.bank) "delta";
         sosfilt f [1; 0; 2] z) with
  | Ok (outs, _), Ok (y, _) =>
      (λ out : gmap string float, out !! "delta") <$> outs = Some <$> y
  | _, _ => False
  end.
Proof. by vm_compute. Qed.

(** A first sample of 0 on the constructed bank: the delta band answers
    with a value that is not 0. *)
Example feed_zero_transient :
  match feed Demo.bank [0] with
  | Ok ([out], _) =>
      match out !! "delta" with
      | Some y => (y =? 0) = false
      | None => False
      end
  | _ => False
  end.
Proof. by vm_compute. Qed.

(** A pass of [main]'s loop with the samples 1 and 2 queued. *)
Example main_loop_run :
  match Main.loop (Main.Main (SerialEEGReader.SerialEEGReader (Queue.Queue 0 [1; 2]) 2)
                             (Buffers.new Demo.bank) 0) with
  | Ok st =>
      deque.items (Buffers.raw_buffer (Main.bufs st)) = [2]
      ∧ Main.sample_count st = 1%Z
      ∧ Queue.items (SerialEEGReader.val_queue (Main.reader st)) = []
  | Raise _ => False
  end.
Proof. by vm_compute. Qed.

(** A pass of the bulb's polling callback with the samples 200, 310 and
    90 queued: the three are in the window, the level is that of 90. *)
Example poll_run :
  match Bulb.poll_queue_and_update
          (Bulb.Bulb (Queue.Queue 0 [200; 310; 90]) (deque.new Bulb.SMOOTH_WINDOW) 7 None) with
  | Ok app =>
      deque.items (Bulb.window app) = [200; 310; 90]
      ∧ Bulb.brightness_level app = 0%Z
      ∧ Bulb.texts app = Some (90, 200)
  | Raise _ => False
  end.
Proof. by vm_compute. Qed.

(** The readers on a few lines. *)
Example read_lines :
  readers_leave Demo.float_of_str [] 0 (Ok "  42
") [42] 1
  ∧ readers_leave Demo.float_of_str [] 0 (Ok "17,x,3") [17] 1
  ∧ readers_leave Demo.float_of_str [] 0 (Ok "noise") [] 0
  ∧ readers_leave Demo.float_of_str [] 0 (Ok ",5") [] 0
  ∧ readers_leave Demo.float_of_str [] 0 (Ok "   ") [] 0.
Proof. by vm_compute. Qed.
End Binary64Runs.

(** ** The bulb: levels, colours, the moving average *)

Section BulbColours.
Local Open Scope Z_scope.

Lemma level_cases (level : Z) :
  let c := Z.max 0 (Z.min 10 level) in
  c = 0 ∨ c = 1 ∨ c = 2 ∨ c = 3 ∨ c = 4 ∨ c = 5 ∨ c = 6 ∨ c = 7 ∨ c = 8 ∨ c = 9 ∨ c = 10.
Proof. cbn zeta. lia. Qed.

(** X1. [set_brightness] never raises, whatever the level.  It keeps the
    level clamped to 0..10; the intensity it paints is the integer part of
    [255 * level / 10], so it lies in 0..255; at
    level 0 the bulb is black and the halo empty, above it the bulb is
    ["#iiii14"] and the halo ["#iiii0a"] for the two hexadecimal digits
    [ii] of the intensity. *)
Theorem set_brightness_colours (self : BulbApp.t) (level : Z) :
  let c := Bulb.set_brightness level in
  let ii := BulbApp.format_02x (255 * c / 10) in
  0 ≤ c ≤ 10
  ∧ 0 ≤ 255 * c / 10 ≤ 255
  ∧ String.length ii = 2%nat
  ∧ BulbApp.set_brightness self level
    = Ok (if bool_decide (c = 0) then BulbApp.BulbApp c "black" ""
          else BulbApp.BulbApp c (String "#" (ii +:+ ii +:+ "14"))
                               (String "#" (ii +:+ ii +:+ "0a"))).
Proof.
  cbn zeta. unfold BulbApp.set_brightness, Bulb.set_brightness.
  replace (Z.min 10 level `max` 0) with (Z.max 0 (Z.min 10 level)) by lia.
  pose proof (level_cases level) as Hc. cbn zeta in Hc.
  destruct Hc as [Hc|[Hc|[Hc|[Hc|[Hc|[Hc|[Hc|[Hc|[Hc|[Hc|Hc]]]]]]]]]];
    rewrite Hc; by vm_compute.
Qed.
End BulbColours.

Section BulbMore.
Import Bulb.
Local Open Scope float_scope.

Lemma last_drop_lt {A} (l : list A) (n : nat) :
  n < length l → last (drop n l) = last l.
Proof.
  revert l. induction n as [|n IH]; intros l Hn; [done|].
  destruct l as [|x l]; [cbn in Hn; lia|].
  cbn [drop]. rewrite IH by (cbn in Hn; lia).
  destruct l; [cbn in Hn; lia|done].
Qed.

Lemma int_raises (x : float) e :
  int_ x = Raise e → e = OverflowError ∨ e = ValueError.
Proof.
  unfold int_. destruct (Prim2SF x); intros [= <-]; auto.
Qed.

(** X2. [map_to_brightness] never divides by zero, also when
    [max_signal] equals [threshold]: the only exceptions it can raise are
    those of [int] on a float that is not finite.  Whenever it returns,
    the level is from 0 to 10, and it is 0 for a value at or below the
    threshold. *)
Theorem map_to_brightness_level_or_int_error (value_abs threshold max_signal : float) :
  match map_to_brightness value_abs threshold max_signal with
  | Ok level =>
      (0 ≤ level ≤ 10)%Z ∧ ((value_abs <=? threshold) = true → level = 0%Z)
  | Raise e =>
      (e = OverflowError ∨ e = ValueError) ∧ (value_abs <=? threshold) = false
  end.
Proof.
  rewrite map_to_brightness_unfold.
  destruct (value_abs <=? threshold); [split; [lia|done]|].
  destruct (int_ _) as [level|e] eqn:Hi; cbn [mbind result_bind].
  - split; [lia|done].
  - split; [by eapply int_raises|done].
Qed.

(** X3. On the window of [run_app], of capacity [SMOOTH_WINDOW],
    [compute_moving_average] never raises: the window it leaves ends with
    the new value, holds what a deque of that capacity keeps, between 1 and
    [SMOOTH_WINDOW] values, and the average is their sum over their
    number.  On an empty window of capacity 0 it raises
    [ZeroDivisionError]. *)
Theorem compute_moving_average_window :
  (∀ (w : deque.t float) (v : float),
     deque.maxlen w = SMOOTH_WINDOW → deque.len w ≤ SMOOTH_WINDOW →
     let w' := deque.append w v in
     compute_moving_average w v
     = Ok (sum (deque.items w') / float_of_int (Z.of_nat (deque.len w')), w')
     ∧ last (deque.items w') = Some v
     ∧ 1 ≤ deque.len w' ≤ SMOOTH_WINDOW
     ∧ deque.items w'
       = drop (S (deque.len w) - SMOOTH_WINDOW) (deque.items w ++ [v]))
  ∧ (∀ v : float,
     compute_moving_average (deque.new 0) v = Raise ZeroDivisionError).
Proof.
  split; [|intros v; by vm_compute].
  intros w v Hmax Hlen. cbn zeta.
  pose proof (deque_append_len w v ltac:(lia)) as Hl.
  pose proof (deque_append_items w v ltac:(lia)) as Hi.
  rewrite Hmax in Hl, Hi.
  assert (1 ≤ deque.len (deque.append w v) ≤ SMOOTH_WINDOW) as Hb
    by (unfold SMOOTH_WINDOW in *; lia).
  split; [|split; [|done]].
  - unfold compute_moving_average, truediv.
    change (@feqb float float64) with PrimFloat.eqb.
    change (@of_int float float64) with float_of_int.
    by rewrite window_len_nonzero.
  - rewrite Hi. rewrite last_drop_lt.
    + by rewrite last_snoc.
    + rewrite length_app. cbn [length]. unfold deque.len, SMOOTH_WINDOW in *. lia.
Qed.
End BulbMore.

Section BulbInvariant.
Import Bulb.
Context (float_of_str : string → option float).

Lemma poll_queue_and_update_empty (app : t) m :
  val_queue app = Queue.Queue m [] →
  poll_queue_and_update app
  = Ok (Bulb (Queue.Queue m []) (window app) (brightness_level app) (texts app)).
Proof. intros Hq. unfold poll_queue_and_update. by rewrite Hq. Qed.

(** What a poll comes to on a window of capacity [SMOOTH_WINDOW]. *)
Lemma poll_queue_and_update_outcome (app : t) :
  deque.maxlen (window app) = SMOOTH_WINDOW →
  deque.len (window app) ≤ SMOOTH_WINDOW →
  match poll_queue_and_update app with
  | Ok app' =>
      Queue.maxsize (val_queue app') = Queue.maxsize (val_queue app)
      ∧ Queue.items (val_queue app') = []
      ∧ window app' = deque.extend (window app) (Queue.items (val_queue app))
      ∧ (brightness_level app' = brightness_level app
         ∨ (0 ≤ brightness_level app' ≤ 10)%Z)
  | Raise e => e = OverflowError ∨ e = ValueError
  end.
Proof.
  intros Hmax Hlen. destruct (val_queue app) as [m items] eqn:Hq.
  destruct (decide (items = [])) as [->|Hne].
  - rewrite (poll_queue_and_update_empty app m Hq). cbn. auto.
  - destruct (exists_last Hne) as (l & x & ->).
    destruct (poll_queue_and_update_drains app m l x Hmax Hlen Hq) as [smooth ->].
    pose proof (map_to_brightness_unfold (abs x) THRESHOLD MAX_SIGNAL) as Hu.
    destruct (map_to_brightness (abs x) THRESHOLD MAX_SIGNAL) as [level|e] eqn:Hm;
      cbn [mbind result_bind].
    + cbn. repeat split; try done. right. unfold set_brightness. lia.
    + destruct (PrimFloat.leb _ _); [done|].
      destruct (int_ _) as [lv|e'] eqn:Hi; [done|].
      injection Hu as ->. by eapply int_raises.
Qed.

Lemma bulb_reachable_level (app : t) :
  reachable float_of_str app → (0 ≤ brightness_level app ≤ 10)%Z.
Proof.
  induction 1 as [|app app' Hr IH Hstep]; [done|].
  destruct Hstep as [app readline q _|app app' Hp]; [done|].
  destruct (bulb_reachable_inv float_of_str app Hr) as (_ & Hmax & Hlen).
  pose proof (poll_queue_and_update_outcome app Hmax Hlen) as Ho.
  rewrite Hp in Ho. destruct Ho as (_ & _ & _ & [->|Hb]); done.
Qed.

(** X4. In every state the bulb script can reach, the brightness level is
    from 0 to 10 and the smoothing window holds at most [SMOOTH_WINDOW]
    values.  A poll in such a state empties the queue and puts every
    queued value into the window, or raises, and then only the error of
    [int] on a value that is not finite. *)
Theorem bulb_reachable_bounds (app : t) :
  reachable float_of_str app →
  (0 ≤ brightness_level app ≤ 10)%Z
  ∧ deque.len (window app) ≤ SMOOTH_WINDOW
  ∧ match poll_queue_and_update app with
    | Ok app' =>
        Queue.items (val_queue app') = []
        ∧ window app' = deque.extend (window app) (Queue.items (val_queue app))
    | Raise e => e = OverflowError ∨ e = ValueError
    end.
Proof.
  intros Hr. destruct (bulb_reachable_inv float_of_str app Hr) as (_ & Hmax & Hlen).
  split; [by apply bulb_reachable_level|]. split; [done|].
  pose proof (poll_queue_and_update_outcome app Hmax Hlen) as Ho.
  destruct (poll_queue_and_update app); [|done].
  by destruct Ho as (_ & ? & ? & _).
Qed.
End BulbInvariant.

(** The bulb script after the line 300, and a poll in that state. *)
Lemma bulb_reachable_bounds_witness :
  Bulb.reachable Demo.float_of_str
    (Bulb.Bulb (Queue.Queue 0 [float_of_int 300]) (deque.new Bulb.SMOOTH_WINDOW) 0 None)
  ∧ (0 ≤ 0 ≤ 10)%Z
  ∧ deque.len (deque.new (A:=float) Bulb.SMOOTH_WINDOW) ≤ Bulb.SMOOTH_WINDOW
  ∧ match Bulb.poll_queue_and_update
            (Bulb.Bulb (Queue.Queue 0 [float_of_int 300])
                       (deque.new Bulb.SMOOTH_WINDOW) 0 None) with
    | Ok app' =>
        Queue.items (Bulb.val_queue app') = []
        ∧ Bulb.window app'
          = deque.extend (deque.new Bulb.SMOOTH_WINDOW) [float_of_int 300]
    | Raise e => e = OverflowError ∨ e = ValueError
    end.
Proof.
  assert (Bulb.reachable Demo.float_of_str
            (Bulb.Bulb (Queue.Queue 0 [float_of_int 300])
                       (deque.new Bulb.SMOOTH_WINDOW) 0 None)) as Hr.
  { eapply Bulb.reachable_step; [apply Bulb.reachable_start|].
    apply (Bulb.step_read Demo.float_of_str Bulb.start (Ok "300")). reflexivity. }
  split; [exact Hr|].
  exact (bulb_reachable_bounds Demo.float_of_str _ Hr).
Defined.

(** ** The readers over a stream of lines *)

Section ReaderPasses.
Context {F : Type}.
Context (float_of_str : string → option F).

(** One pass, by the number the line stands for. *)
Lemma readers_leave_value items n readline :
  readers_leave float_of_str items n readline
    (items ++ option_list (line_value float_of_str readline))
    (n + Z.of_nat (length (option_list (line_value float_of_str readline)))).
Proof.
  destruct readline as [text|e].
  - pose proof (readers_leave_text float_of_str items n text) as Hl.
    rewrite parse_float in Hl. unfold line_value.
    case_bool_decide.
    + cbn. by rewrite app_nil_r, Z.add_0_r.
    + destruct (float_of_str _) as [v|]; cbn.
      * done.
      * by rewrite app_nil_r, Z.add_0_r.
  - cbn. rewrite app_nil_r, Z.add_0_r. apply readers_leave_error.
Qed.

Lemma readers_passes items n readlines :
  read_loop_passes float_of_str
    (SerialEEGReader.SerialEEGReader (Queue.Queue 0 items) n) readlines
  = Ok (Next (SerialEEGReader.SerialEEGReader
                (Queue.Queue 0 (items ++ omap (line_value float_of_str) readlines))
                (n + Z.of_nat (length (omap (line_value float_of_str) readlines)))))
  ∧ serial_reader_passes float_of_str (Queue.Queue 0 items) readlines
    = Ok (Next (Queue.Queue 0 (items ++ omap (line_value float_of_str) readlines))).
Proof.
  revert items n. induction readlines as [|r rest IH]; intros items n.
  - cbn. by rewrite app_nil_r, Z.add_0_r.
  - destruct (readers_leave_value items n r) as [H1 H2].
    destruct (IH (items ++ option_list (line_value float_of_str r))
                 (n + Z.of_nat (length (option_list (line_value float_of_str r))))%Z)
      as [IH1 IH2].
    cbn [read_loop_passes serial_reader_passes omap list_omap].
    rewrite H1, H2. cbn [mbind result_bind]. rewrite IH1, IH2.
    destruct (line_value float_of_str r) as [v|];
      unfold option_list, option_rect; cbn [length app].
    + rewrite <- !(assoc_L (++)). cbn [app].
      split; [|done]. do 3 f_equal. lia.
    + rewrite !app_nil_r. split; [|done]. do 3 f_equal. lia.
Qed.

(** X5. Whatever the lines, both readers get through them without
    raising and without waiting, and leave in the queue, after what it
    held, the numbers of the lines that stand for one, in the order the
    lines came: nothing is lost, repeated or reordered.  The counter of
    [_read_loop] has grown by the number of these lines. *)
Theorem readers_enqueue_in_order (items : list F) (n : Z) (readlines : list (result string)) :
  let values := omap (line_value float_of_str) readlines in
  read_loop_passes float_of_str
    (SerialEEGReader.SerialEEGReader (Queue.Queue 0 items) n) readlines
  = Ok (Next (SerialEEGReader.SerialEEGReader
                (Queue.Queue 0 (items ++ values)) (n + Z.of_nat (length values))))
  ∧ serial_reader_passes float_of_str (Queue.Queue 0 items) readlines
    = Ok (Next (Queue.Queue 0 (items ++ values))).
Proof. apply readers_passes. Qed.

(** X6. After any lines read into an empty queue, [read_latest] returns
    the number of the last line that stands for one, [None] if no line
    does, and leaves the queue empty. *)
Theorem read_latest_after_lines (n : Z) (readlines : list (result string)) :
  ∃ self,
    read_loop_passes float_of_str
      (SerialEEGReader.SerialEEGReader (Queue.Queue 0 []) n) readlines
    = Ok (Next self)
    ∧ SerialEEGReader.read_latest self
      = (last (omap (line_value float_of_str) readlines),
         SerialEEGReader.SerialEEGReader (Queue.Queue 0 [])
           (SerialEEGReader.last_print self)).
Proof.
  eexists. split; [exact (proj1 (readers_passes [] n readlines))|].
  by rewrite read_latest_drains.
Qed.
End ReaderPasses.

(** ** The loop of [main]: what it has counted, and that it goes on *)

Section MainCounts.
Context `{Arith F}.
Context (butter_design : Z → F → F → sos F).
Context (float_of_str : string → option F).

Lemma read_loop_counts (r r' : SerialEEGReader.t F) readline :
  Queue.maxsize (SerialEEGReader.val_queue r) = 0%Z →
  SerialEEGReader._read_loop float_of_str r readline = Ok (Next r') →
  (Z.of_nat (Queue.qsize (SerialEEGReader.val_queue r'))
   - Z.of_nat (Queue.qsize (SerialEEGReader.val_queue r))
   = SerialEEGReader.last_print r' - SerialEEGReader.last_print r)%Z.
Proof.
  destruct r as [[m items] n]. cbn. intros -> Hr.
  destruct (readers_leave_value float_of_str items n readline) as [Hl _].
  rewrite Hl in Hr. injection Hr as <-. unfold Queue.qsize. cbn.
  rewrite length_app. lia.
Qed.

(** X7. In every state the four-band script reaches, the reader thread
    and the loop taking turns in any order, the samples the loop has
    counted and those still queued are together no more than the
    numbers the reader has counted: the loop never sees a sample twice,
    and what it drops by keeping only the latest is never counted. *)
Theorem main_counts_at_most_received (st : Main.t F) :
  Main.reachable butter_design float_of_str st →
  (0 ≤ Main.sample_count st
   ∧ Z.of_nat (Queue.qsize (SerialEEGReader.val_queue (Main.reader st)))
     + Main.sample_count st
     ≤ SerialEEGReader.last_print (Main.reader st))%Z.
Proof.
  intros Hreach. split; [by apply (main_reachable_settled butter_design float_of_str)|].
  induction Hreach as [st Hst|st st' Hreach IH Hstep].
  - unfold Main.start in Hst. by apply bind_Ok in Hst as (filters & _ & [= <-]).
  - pose proof (main_reachable_queue butter_design float_of_str st Hreach) as Hm.
    destruct Hstep as [st readline r Hr|st st' Hloop].
    + pose proof (read_loop_counts _ _ _ Hm Hr). cbn. lia.
    + unfold Main.loop in Hloop. destruct st as [[[m items] lp] b c].
      cbn in IH, Hm. subst m.
      cbn [Main.reader Main.bufs Main.sample_count] in Hloop.
      rewrite read_latest_drains in Hloop.
      unfold Queue.qsize in IH. cbn in IH.
      destruct items as [|x items] using rev_ind.
      * injection Hloop as <-. cbn in *. lia.
      * rewrite last_snoc in Hloop.
        apply bind_Ok in Hloop as (b' & _ & [= <-]). cbn.
        rewrite length_app in IH. cbn in IH. lia.
Qed.

(** X8. In no state the four-band script reaches does a pass of the loop
    raise: the filters have a state for every band, and [apply] returns
    a value for every band the buffers are keyed by.  The pass leaves the
    queue empty, and counts one sample exactly when the queue held
    one. *)
Theorem main_loop_never_raises (st : Main.t F) :
  Main.reachable butter_design float_of_str st →
  ∃ st',
    Main.loop st = Ok st'
    ∧ Main.reachable butter_design float_of_str st'
    ∧ Queue.items (SerialEEGReader.val_queue (Main.reader st')) = []
    ∧ Main.sample_count st'
      = (Main.sample_count st
         + if bool_decide (Queue.items (SerialEEGReader.val_queue (Main.reader st)) = [])
           then 0 else 1)%Z.
Proof.
  intros Hreach.
  destruct (main_reachable_settled butter_design float_of_str st Hreach) as [_ Hs].
  assert (∃ st', Main.loop st = Ok st'
    ∧ Queue.items (SerialEEGReader.val_queue (Main.reader st')) = []
    ∧ Main.sample_count st'
      = (Main.sample_count st
         + if bool_decide (Queue.items (SerialEEGReader.val_queue (Main.reader st)) = [])
           then 0 else 1)%Z) as (st' & Hl & Hq & Hc).
  { destruct st as [[[m items] lp] b c]. cbn in Hs |- *.
    destruct items as [|x items _] using rev_ind.
    - eexists. split; [by eapply main_loop_empty|]. cbn.
      split; [done|]. lia.
    - destruct (main_loop_keeps_latest
                  (Main.Main (SerialEEGReader.SerialEEGReader (Queue.Queue m (items ++ [x])) lp) b c)
                  _ m items x Hs eq_refl) as (st' & Hl & Hq & _ & Hc).
      exists st'. split; [done|]. rewrite Hq. split; [done|].
      rewrite Hc. cbn. rewrite bool_decide_false; [done|].
      intros Hnil. by apply app_eq_nil in Hnil as [_ ?]. }
  exists st'. split; [done|]. split; [|done].
  eapply Main.reachable_step; [done|]. by apply Main.step_loop.
Qed.
End MainCounts.

(** The state after the lines "7" and "8": two queued, none counted. *)
Lemma main_counts_at_most_received_witness :
  Main.reachable Demo.butter_design Demo.float_of_str
    (Main.Main (SerialEEGReader.SerialEEGReader
                  (Queue.Queue 0 [float_of_int 7; float_of_int 8]) 2)
               (Buffers.new Demo.bank) 0)
  ∧ (0 ≤ 0 ∧ 2 + 0 ≤ 2)%Z.
Proof.
  assert (Main.reachable Demo.butter_design Demo.float_of_str
    (Main.Main (SerialEEGReader.SerialEEGReader
                  (Queue.Queue 0 [float_of_int 7; float_of_int 8]) 2)
               (Buffers.new Demo.bank) 0)) as Hreach.
  { apply (main_reachable_reads Demo.butter_design Demo.float_of_str _
             [("7", float_of_int 7); ("8", float_of_int 8)] demo_start).
    repeat (apply Forall_cons; split; [by vm_compute|]). constructor. }
  split; [exact Hreach|].
  exact (main_counts_at_most_received Demo.butter_design Demo.float_of_str _ Hreach).
Defined.

(** The pass on the state after the lines "7" and "8" counts one sample. *)
Lemma main_loop_never_raises_witness :
  Main.reachable Demo.butter_design Demo.float_of_str
    (Main.Main (SerialEEGReader.SerialEEGReader
                  (Queue.Queue 0 [float_of_int 7; float_of_int 8]) 2)
               (Buffers.new Demo.bank) 0)
  ∧ ∃ st',
      Main.loop
        (Main.Main (SerialEEGReader.SerialEEGReader
                      (Queue.Queue 0 [float_of_int 7; float_of_int 8]) 2)
                   (Buffers.new Demo.bank) 0) = Ok st'
      ∧ Main.sample_count st' = 1%Z.
Proof.
  assert (Main.reachable Demo.butter_design Demo.float_of_str
    (Main.Main (SerialEEGReader.SerialEEGReader
                  (Queue.Queue 0 [float_of_int 7; float_of_int 8]) 2)
               (Buffers.new Demo.bank) 0)) as Hreach.
  { apply (main_reachable_reads Demo.butter_design Demo.float_of_str _
             [("7", float_of_int 7); ("8", float_of_int 8)] demo_start).
    repeat (apply Forall_cons; split; [by vm_compute|]). constructor. }
  split; [exact Hreach|].
  destruct (main_loop_never_raises Demo.butter_design Demo.float_of_str _ Hreach)
    as (st' & Hl & _ & _ & Hc).
  exists st'. split; [exact Hl|exact Hc].
Defined.

(** ** [FourBandFilters.__init__]: what construction yields *)

Section InitDesigns.
Context `{Arith F}.
Context (butter_design : Z → F → F → sos F).
Import FourBandFilters.

Lemma butter_Ok N lo_n hi_n (f : sos F) :
  butter butter_design N (lo_n, hi_n) = Ok f → f = butter_design N lo_n hi_n.
Proof.
  unfold butter. destruct (_ || _); [done|]. destruct (negb _); [done|].
  by intros [= <-].
Qed.

Lemma init_bands_untouched (self self' : t F) items :
  init_bands butter_design self items = Ok self' →
  sample_rate self' = sample_rate self
  ∧ nyquist self' = nyquist self
  ∧ dom (zi self') = dom (zi self) ∪ list_to_set items.*1
  ∧ ∀ name, name ∉ items.*1 →
      filters self' !! name = filters self !! name
      ∧ zi self' !! name = zi self !! name.
Proof.
  revert self. induction items as [|[k [lo hi]] items IH]; intros self.
  - intros [= <-]. cbn. split; [done|]. split; [done|]. split; [set_solver|done].
  - rewrite init_bands_cons, fmap_cons. intros Hi.
    apply bind_Ok in Hi as (self1 & H1 & Hi).
    apply init_band_Ok in H1 as (lo_n & hi_n & f & z & _ & _ & _ & _ & ->).
    destruct (IH _ Hi) as (-> & -> & Hdom & Hun). cbn.
    split; [done|]. split; [done|]. split.
    + rewrite Hdom. cbn. rewrite dom_insert_L. set_solver.
    + intros name Hn. apply not_elem_of_cons in Hn as [Hne Hn].
      destruct (Hun name Hn) as [-> ->]. cbn. by rewrite !lookup_insert_ne.
Qed.

Lemma init_bands_designs (self self' : t F) items :
  init_bands butter_design self items = Ok self' →
  NoDup items.*1 →
  ∀ name lo hi, (name, (lo, hi)) ∈ items →
    ∃ lo_n hi_n z,
      truediv lo (nyquist self) = Ok lo_n
      ∧ truediv hi (nyquist self) = Ok hi_n
      ∧ butter butter_design 4 (lo_n, hi_n) = Ok (butter_design 4 lo_n hi_n)
      ∧ filters self' !! name = Some (butter_design 4 lo_n hi_n)
      ∧ zi self' !! name = Some z
      ∧ sosfilt_zi (butter_design 4 lo_n hi_n) = Ok z.
Proof.
  revert self. induction items as [|[k [lo0 hi0]] items IH]; intros self Hi Hnd name lo hi Hin.
  - by apply elem_of_nil in Hin.
  - rewrite init_bands_cons in Hi. rewrite fmap_cons in Hnd.
    apply NoDup_cons in Hnd as [Hk Hnd]. cbn [fst] in Hk.
    apply bind_Ok in Hi as (self1 & H1 & Hi).
    apply init_band_Ok in H1 as (lo_n & hi_n & f & z & Hlo & Hhi & Hf & Hz & ->).
    apply elem_of_cons in Hin as [[= -> -> ->]|Hin].
    + destruct (init_bands_untouched _ _ _ Hi) as (_ & _ & _ & Hun).
      destruct (Hun k Hk) as [Hfk Hzk]. cbn in Hfk, Hzk.
      rewrite lookup_insert_eq in Hfk. rewrite lookup_insert_eq in Hzk.
      pose proof (butter_Ok _ _ _ _ Hf) as ->.
      by exists lo_n, hi_n, z.
    + exact (IH _ Hi Hnd name lo hi Hin).
Qed.

(** X9. When the constructor returns, the bank holds the sample rate it
    was given and half of it as Nyquist; its filters and its states are
    keyed by the four bands and by nothing else; the filter of each band
    is the design of order 4 that [butter] accepted at the band's
    cutoffs divided by Nyquist, and its state is what [sosfilt_zi] gives
    for that filter. *)
Theorem init_filters_by_band (sr : Z) (self : t F) :
  __init__ butter_design sr = Ok self →
  sample_rate self = sr
  ∧ nyquist self = fdiv (of_int sr) (of_int 2)
  ∧ dom (filters self) = band_names
  ∧ dom (zi self) = band_names
  ∧ ∀ name lo hi, (name, (lo, hi)) ∈ bands_hz →
      ∃ lo_n hi_n z,
        truediv lo (nyquist self) = Ok lo_n
        ∧ truediv hi (nyquist self) = Ok hi_n
        ∧ butter butter_design 4 (lo_n, hi_n) = Ok (butter_design 4 lo_n hi_n)
        ∧ filters self !! name = Some (butter_design 4 lo_n hi_n)
        ∧ zi self !! name = Some z
        ∧ sosfilt_zi (butter_design 4 lo_n hi_n) = Ok z.
Proof.
  intros Hi. destruct (init_shaped _ _ _ Hi) as [_ Hdom].
  unfold __init__ in Hi.
  destruct (init_bands_untouched _ _ _ Hi) as (Hsr & Hny & Hdz & _).
  cbn in Hsr, Hny, Hdz.
  split; [done|]. split; [done|]. split; [done|]. split.
  { rewrite Hdz. unfold band_names. set_solver. }
  intros name lo hi Hin. rewrite Hny.
  apply (init_bands_designs _ _ _ Hi); [|done].
  cbn. repeat (apply NoDup_cons; split; [set_solver|]). apply NoDup_nil_2.
Qed.
End InitDesigns.

(** The bank of [main] on binary64, with the stand-in design. *)
Lemma init_filters_by_band_witness :
  FourBandFilters.__init__ Demo.butter_design SAMPLE_RATE = Ok Demo.bank
  ∧ FourBandFilters.sample_rate Demo.bank = SAMPLE_RATE
  ∧ dom (FourBandFilters.filters Demo.bank) = band_names.
Proof.
  split; [exact demo_bank_init|].
  pose proof (init_filters_by_band Demo.butter_design SAMPLE_RATE Demo.bank demo_bank_init)
    as (Hsr & _ & Hdom & _).
  split; [exact Hsr|exact Hdom].
Defined.

(** ** [FourBandFilters.__init__]: the outcome by sample rate *)

Section RealOutcome.
Import FourBandFilters.
Context (butter_design : Z → R → R → sos R).
Local Open Scope R_scope.




End RealOutcome.


(** ** [FourBandFilters.apply]: when it returns *)

Section ApplyOutcome.
Context `{Arith F}.
Import FourBandFilters.

Lemma apply_band_inv (x : F) acc k (f : sos F) out' z' :
  apply_band x acc (k, f) = Ok (out', z') →
  ∃ out z zk,
    acc = Ok (out, z) ∧ z !! k = Some zk ∧ length zk = length f
    ∧ z' = <[k := (sos_sample f zk x).2]> z.
Proof.
  destruct acc as [[out z]|e0]; [|done]. unfold apply_band. cbn.
  unfold getitem. destruct (z !! k) as [zk|] eqn:Hzk; [|done]. cbn.
  destruct (decide (length zk = length f)) as [Hlen|Hlen].
  - rewrite (sosfilt_one f zk x Hlen). cbn. intros [= <- <-].
    by exists out, z, zk.
  - unfold sosfilt. by rewrite decide_False by done.
Qed.

Lemma apply_band_Raise (x : F) acc k (f : sos F) e :
  apply_band x acc (k, f) = Raise e →
  acc = Raise e ∨ e = KeyError ∨ e = ValueError.
Proof.
  destruct acc as [[out z]|e0]; [|cbn; intros [= ->]; by left].
  unfold apply_band. cbn.
  unfold getitem. destruct (z !! k) as [zk|] eqn:Hzk; [|cbn; intros [= <-]; auto]. cbn.
  destruct (decide (length zk = length f)) as [Hlen|Hlen].
  - by rewrite (sosfilt_one f zk x Hlen).
  - unfold sosfilt. rewrite decide_False by done. cbn. intros [= <-]. auto.
Qed.

Lemma apply_band_fold_inv (x : F) (items : list (string * sos F)) acc out' z' :
  NoDup items.*1 →
  foldl (apply_band x) acc items = Ok (out', z') →
  ∃ out z,
    acc = Ok (out, z)
    ∧ ∀ k f, (k, f) ∈ items → length <$> z !! k = Some (length f).
Proof.
  revert acc. induction items as [|[k0 f0] items IH]; intros acc Hnd Hf.
  - cbn in Hf. subst acc. exists out', z'. split; [done|].
    intros k f Hin. by apply elem_of_nil in Hin.
  - rewrite fmap_cons in Hnd. apply NoDup_cons in Hnd as [Hk0 Hnd]. cbn [fst] in Hk0.
    cbn [foldl] in Hf. destruct (IH _ Hnd Hf) as (out1 & z1 & Hb & Hsh).
    apply apply_band_inv in Hb as (out & z & zk & -> & Hzk & Hlen & ->).
    exists out, z. split; [done|]. intros k f Hin.
    apply elem_of_cons in Hin as [[= -> ->]|Hin].
    + by rewrite Hzk; cbn; rewrite Hlen.
    + specialize (Hsh k f Hin). rewrite lookup_insert_ne in Hsh; [done|].
      intros Heq. subst k. apply Hk0. by apply (list_elem_of_fmap_2 fst _ (k0, f)).
Qed.

Lemma apply_band_fold_Raise (x : F) (items : list (string * sos F)) acc e :
  foldl (apply_band x) acc items = Raise e →
  acc = Raise e ∨ e = KeyError ∨ e = ValueError.
Proof.
  revert acc. induction items as [|[k0 f0] items IH]; intros acc Hf.
  - by left.
  - cbn [foldl] in Hf. destruct (IH _ Hf) as [Hb|He]; [|by right].
    by apply apply_band_Raise in Hb.
Qed.

(** X11. [apply] returns exactly on the banks in which every filter has
    a state of its own shape.  It then leaves the filters, the sample
    rate and Nyquist as they are, returns one value for each band and
    for nothing else, and the bank it leaves is again one on which it
    returns.  On every other bank it raises: [KeyError] for a missing
    state or the [ValueError] of [sosfilt] for a state of the wrong
    shape, and nothing else. *)
Theorem apply_returns_iff_shaped (self : t F) (sample : F) :
  match apply self sample with
  | Ok (out, self') =>
      shaped self
      ∧ filters self' = filters self
      ∧ sample_rate self' = sample_rate self
      ∧ nyquist self' = nyquist self
      ∧ dom out = dom (filters self)
      ∧ shaped self'
  | Raise e => ¬ shaped self ∧ (e = KeyError ∨ e = ValueError)
  end.
Proof.
  destruct (apply self sample) as [[out self']|e] eqn:Ha.
  - assert (shaped self) as Hsh.
    { unfold apply in Ha. apply bind_Ok in Ha as ([out1 z1] & Hf & _).
      apply apply_band_fold_inv in Hf as (out0 & z0 & [= <- <-] & Hsh);
        [|apply NoDup_fst_map_to_list].
      intros k f Hk. apply Hsh. by apply elem_of_map_to_list. }
    split; [done|].
    destruct (apply_spec self sample Hsh) as (out2 & z' & Hap & Hdom & Hbands).
    rewrite Hap in Ha. injection Ha as <- <-. cbn.
    split; [done|]. split; [done|]. split; [done|]. split; [done|].
    intros k f Hk. cbn in Hk |- *.
    destruct (Hbands k f Hk) as (zk & Hzk & _ & ->). cbn.
    destruct (shaped_lookup self k f Hsh Hk) as (zk' & Hzk' & Hlen).
    assert (zk' = zk) as -> by congruence.
    by rewrite sos_sample_length.
  - split.
    + intros Hsh. destruct (apply_spec self sample Hsh) as (out2 & z' & Hap & _).
      by rewrite Hap in Ha.
    + unfold apply in Ha.
      destruct (foldl _ _ _) as [[out1 z1]|e1] eqn:Hf; [done|].
      cbn in Ha. injection Ha as ->.
      by apply apply_band_fold_Raise in Hf as [?|?].
Qed.
End ApplyOutcome.

(** ** What the plots are drawn from *)

Section BuffersContent.
Context `{Arith F}.
Context (butter_design : Z → F → F → sos F).
Import Buffers.

Lemma sos_run_fst_length (f : sos F) z xs :
  length (sos_run f z xs).1 = length xs.
Proof.
  revert z. induction xs as [|x xs IH]; intros z; [done|].
  rewrite sos_run_cons. cbn [fst length]. by rewrite IH.
Qed.

Lemma new_band_buffers (filters : FourBandFilters.t F) name :
  name ∈ band_names →
  band_buffers (new filters) !! name = Some (deque.new BUFFER_SIZE).
Proof.
  unfold band_names, new. cbn. intros Hn.
  rewrite !lookup_insert. repeat case_decide; try done. set_solver.
Qed.

(** X12. Starting from a bank the constructor returned and from empty
    buffers, pushing any samples one after the other never raises; the
    raw buffer then holds the last [BUFFER_SIZE] samples (all of them if
    they are fewer), and the buffer of each band holds the values at the
    same positions of the signal [sosfilt] gives for the whole run of
    samples in one call, from the state set up at construction: the
    traces are what a batch filter would show, index by index with the
    raw samples. *)
Theorem buffers_hold_tail_of_filtered_run (sr : Z) (bank : FourBandFilters.t F)
    (samples : list F) :
  FourBandFilters.__init__ butter_design sr = Ok bank →
  ∃ b,
    pushes (new bank) samples = Ok b
    ∧ deque.items (raw_buffer b) = drop (length samples - BUFFER_SIZE) samples
    ∧ ∀ name f z,
        FourBandFilters.filters bank !! name = Some f →
        FourBandFilters.zi bank !! name = Some z →
        ∃ d y zf,
          sosfilt f samples z = Ok (y, zf)
          ∧ length y = length samples
          ∧ band_buffers b !! name = Some d
          ∧ deque.items d = drop (length samples - BUFFER_SIZE) y
          ∧ FourBandFilters.zi (filters b) !! name = Some zf.
Proof.
  intros Hi. destruct (init_shaped _ _ _ Hi) as [Hsh Hdom].
  destruct (new_consistent bank Hsh Hdom) as [Hc Ha].
  destruct (pushes_spec (new bank) samples Hc Ha) as (b & Hp & _ & _ & Hraw & Hbands).
  exists b. split; [done|]. split.
  - rewrite Hraw, deque_extend_items by (cbn; lia). done.
  - intros name f z Hf Hz.
    assert (name ∈ band_names) as Hn by (rewrite <- Hdom; by apply elem_of_dom).
    destruct (Hbands name f z (deque.new BUFFER_SIZE) Hf Hz (new_band_buffers bank name Hn))
      as (Hd & _ & Hzf).
    destruct (shaped_lookup bank name f Hsh Hf) as (z' & Hz' & Hlen).
    assert (z' = z) as -> by congruence.
    exists (deque.extend (deque.new BUFFER_SIZE) (sos_run f z samples).1),
           (sos_run f z samples).1, (sos_run f z samples).2.
    split. { unfold sosfilt. rewrite decide_True by done. by destruct (sos_run f z samples). }
    split; [apply sos_run_fst_length|]. split; [done|]. split; [|done].
    rewrite deque_extend_items by (cbn; lia). cbn.
    by rewrite sos_run_fst_length.
Qed.
End BuffersContent.

(** Three samples through the bank of [main] on binary64. *)
Lemma buffers_hold_tail_of_filtered_run_witness :
  FourBandFilters.__init__ Demo.butter_design SAMPLE_RATE = Ok Demo.bank
  ∧ ∃ b,
      Buffers.pushes (Buffers.new Demo.bank) [1; 0; 2]%float = Ok b
      ∧ deque.items (Buffers.raw_buffer b) = [1; 0; 2]%float.
Proof.
  split; [exact demo_bank_init|].
  destruct (buffers_hold_tail_of_filtered_run Demo.butter_design SAMPLE_RATE Demo.bank
              [1; 0; 2]%float demo_bank_init) as (b & Hp & Hraw & _).
  exists b. split; [exact Hp|exact Hraw].
Defined.

(** ** [main_fall]: the schedule of segments *)

Section Schedule.
Context `{Arith F}.
Context (butter_design : Z → F → F → sos F).
Context (sin : F → F) (pi : F).
Context {G : Type} (normal : G → F → F → F * G).
Import MainFall.

Lemma noises_length k (g : G) n : length (noises normal k g n) = n.
Proof.
  revert k g. induction n as [|n IH]; intros k g; [done|].
  cbn [noises]. destruct (normal g _ _) as [noise g']. cbn [length]. by rewrite IH.
Qed.

Lemma segment_by_tick (n : nat) :
  seg_names !! ((n / Z.to_nat segment_samples) `mod` 3)
  = Some (if bool_decide (n `mod` 6000 < 2000) then "low"
          else if bool_decide (n `mod` 6000 < 4000) then "moderate"
          else "high").
Proof.
  change (Z.to_nat segment_samples) with 2000.
  pose proof (Nat.Div0.mod_mul_r n 2000 3) as Hm.
  change (2000 * 3) with 6000 in Hm.
  pose proof (Nat.mod_upper_bound n 2000 ltac:(done)) as H1.
  pose proof (Nat.mod_upper_bound (n / 2000) 3 ltac:(done)) as H2.
  destruct ((n / 2000) `mod` 3) as [|[|[|i]]]; [| | |lia].
  - rewrite bool_decide_eq_true_2 by lia. done.
  - rewrite bool_decide_eq_false_2 by lia. rewrite bool_decide_eq_true_2 by lia. done.
  - rewrite !bool_decide_eq_false_2 by lia. done.
Qed.

(** X13. The synthetic generator never raises, however long it runs.
    After [n] passes it has made [n] raw samples, the count within the
    segment is [n mod 2000], and the segment the next pass will use is
    low, moderate or high as [n mod 6000] is below 2000, below 4000 or
    not: 8 seconds of each at 250 samples a second, repeating every
    6000 passes. *)
Theorem main_fall_schedule (g : G) (st0 : t F G) (n : nat) :
  start butter_design g = Ok st0 →
  ∃ raws st,
    run sin pi normal n st0 = Ok (raws, st)
    ∧ length raws = n
    ∧ seg_count st = Z.of_nat (n `mod` 2000)
    ∧ seg_names !! seg_idx st
      = Some (if bool_decide (n `mod` 6000 < 2000) then "low"
              else if bool_decide (n `mod` 6000 < 4000) then "moderate"
              else "high").
Proof.
  intros Hst. apply (main_fall_start_tick butter_design) in Hst as [Hat _].
  destruct (main_fall_run_ticks sin pi normal n 0 st0 Hat) as (st & Hr & Hidx & Hcnt & _).
  eexists _, st. split; [exact Hr|]. split.
  - rewrite length_zip_with, length_fmap, length_seq, noises_length. lia.
  - cbn [Nat.add] in Hidx, Hcnt. split; [done|].
    rewrite Hidx. apply segment_by_tick.
Qed.
End Schedule.

(** 2500 passes on binary64, the generator returning 0: the second
    segment has begun. *)
Lemma main_fall_schedule_witness :
  MainFall.start Demo.butter_design (λ _ : nat, 0%float)
  = Ok (MainFall.MainFall (Buffers.new Demo.bank) (float_of_int 0) 0 0 (λ _, 0%float))
  ∧ ∃ raws st,
      MainFall.run Demo.sin Demo.pi Demo.normal 2500
        (MainFall.MainFall (Buffers.new Demo.bank) (float_of_int 0) 0 0 (λ _, 0%float))
      = Ok (raws, st)
      ∧ MainFall.seg_count st = 500%Z
      ∧ MainFall.seg_names !! MainFall.seg_idx st = Some "moderate".
Proof.
  split; [exact (demo_fall_start (λ _, 0%float))|].
  destruct (main_fall_schedule Demo.butter_design Demo.sin Demo.pi Demo.normal
              (λ _, 0%float) _ 2500 (demo_fall_start (λ _, 0%float)))
    as (raws & st & Hr & _ & Hc & Hs).
  exists raws, st. split; [exact Hr|]. split; [exact Hc|exact Hs].
Defined.

(** ** The bulb follows the latest value *)

Section BulbLatest.
Import Bulb.
Local Open Scope float_scope.

(** X14. A poll that finds values queued sets the brightness from the
    last of them alone: the level is what [map_to_brightness] gives for
    its absolute value, whatever the level was, whatever was queued
    before it and whatever the moving average is; the values before it
    only pass through the window.  A last value within the dead zone
    turns the bulb off; when [map_to_brightness] raises, the poll raises
    the same. *)
Theorem poll_follows_latest_value (app : t) (m : Z) (l : list float) (x : float) :
  deque.maxlen (window app) = SMOOTH_WINDOW →
  deque.len (window app) ≤ SMOOTH_WINDOW →
  val_queue app = Queue.Queue m (l ++ [x]) →
  match map_to_brightness (abs x) THRESHOLD MAX_SIGNAL with
  | Ok level =>
      (∃ smooth,
         poll_queue_and_update app
         = Ok (Bulb (Queue.Queue m []) (deque.extend (window app) (l ++ [x]))
                    level (Some (x, smooth))))
      ∧ ((abs x <=? THRESHOLD) = true → level = 0%Z)
  | Raise e => poll_queue_and_update app = Raise e
  end.
Proof.
  intros Hmax Hlen Hq.
  destruct (poll_queue_and_update_drains app m l x Hmax Hlen Hq) as [smooth ->].
  destruct (map_to_brightness_returns (abs x) THRESHOLD MAX_SIGNAL) as (Hb & Hz & _).
  destruct (map_to_brightness (abs x) THRESHOLD MAX_SIGNAL) as [level|e];
    cbn [mbind result_bind]; [|done].
  specialize (Hb level eq_refl). split.
  - exists smooth. unfold set_brightness.
    by replace (Z.max 0 (Z.min 10 level)) with level by lia.
  - intros Hle. specialize (Hz Hle). by injection Hz.
Qed.
End BulbLatest.

(** The bulb at level 7, the values 400 and 90 queued: the poll turns it
    off. *)
Lemma poll_follows_latest_value_witness :
  ∃ smooth,
    Bulb.poll_queue_and_update
      (Bulb.Bulb (Queue.Queue 0 [400; 90]%float) (deque.new Bulb.SMOOTH_WINDOW) 7 None)
    = Ok (Bulb.Bulb (Queue.Queue 0 [])
            (deque.extend (deque.new Bulb.SMOOTH_WINDOW) [400; 90]%float)
            0 (Some (90%float, smooth))).
Proof.
  pose proof (poll_follows_latest_value
                (Bulb.Bulb (Queue.Queue 0 [400; 90]%float)
                   (deque.new Bulb.SMOOTH_WINDOW) 7 None)
                0 [400%float] 90%float eq_refl ltac:(cbn; lia) eq_refl) as Hp.
  change (Bulb.map_to_brightness (abs 90) Bulb.THRESHOLD Bulb.MAX_SIGNAL)
    with (Ok 0%Z : result Z) in Hp.
  exact (proj1 Hp).
Defined.
